(** * mongodb_json_converter.py: a shallow embedding and its properties

    The converter rewrites MongoDB constructor values such as
    [ObjectId("...")] into their bare payload, line by line, then loads the
    result as JSON and projects four fields.

    The embedding follows the Python source:
    - text is [list ascii]: the pattern and the template syntax tell apart
      only ASCII letters, digits, parentheses, the backslash and the
      newline, and every other character is copied; a file system is a
      finite map from paths to file contents;
    - the regular expression of [detect_mongodb_object] is an abstract
      syntax tree run by a backtracking matcher that behaves as Python's
      [re] does on the constructs the pattern uses (greedy repetition of
      one-character sets, groups, leftmost search);
    - [re.escape], the compilation of an escaped pattern, the parsing and
      expansion of a replacement template and the loop of [re.sub] are
      modelled after CPython (3.12);
    - exceptions are values of type [exn] in a [pyresult]. *)

From Stdlib Require Import Ascii String.
From stdpp Require Import base option list strings gmap.

Local Open Scope char_scope.
Local Open Scope list_scope.

(** ** Exceptions and results *)

Inductive exn : Type :=
| re_error            (* re.error, or the IndexError that an unknown group
                         name of a replacement template raises *)
| TypeError
| AttributeError
| IndexError
| KeyError
| FileNotFoundError.

Inductive pyresult (A : Type) : Type :=
| Ok (a : A)
| Raise (e : exn).
Arguments Ok {A} a.
Arguments Raise {A} e.

#[global] Instance pyresult_bind : MBind pyresult := λ A B f r,
  match r with
  | Ok a => f a
  | Raise e => Raise e
  end.

(** [list(map(f, xs))]: the calls are made in order, the first exception
    aborts the rest. *)
Fixpoint map_result {A B} (f : A → pyresult B) (xs : list A) : pyresult (list B) :=
  match xs with
  | [] => Ok []
  | x :: xs' => y ← f x; ys ← map_result f xs'; Ok (y :: ys)
  end.

(** ** Characters *)

Abbreviation text := (list ascii).

Definition NL : ascii := "010".
Definition TAB : ascii := "009".
Definition VT : ascii := "011".
Definition FF : ascii := "012".
Definition CR : ascii := "013".
Definition BEL : ascii := "007".
Definition BS : ascii := "008".
Definition DQ : ascii := "034".
Definition BACKSLASH : ascii := "\".
Definition LPAREN : ascii := "(".
Definition RPAREN : ascii := ")".

Definition in_range (lo hi c : ascii) : bool :=
  (nat_of_ascii lo <=? nat_of_ascii c)%nat && (nat_of_ascii c <=? nat_of_ascii hi)%nat.

Definition is_digit (c : ascii) : bool := in_range "0" "9" c.
Definition is_octdigit (c : ascii) : bool := in_range "0" "7" c.
Definition is_ascii_letter (c : ascii) : bool := in_range "a" "z" c || in_range "A" "Z" c.
Definition digit_val (c : ascii) : nat := nat_of_ascii c - 48.

(** ** Regular expressions: syntax *)

(** A one-character set: a character class of ranges, the dot (anything
    but a newline, as no DOTALL flag is given) or a literal. *)
Inductive charset : Type :=
| In_ (ranges : list (ascii * ascii))
| Any
| Literal (c : ascii).

Inductive regex : Type :=
| Empty
| Atom (a : charset)
| MaxRepeat (lo : nat) (hi : option nat) (a : charset)   (* greedy a{lo,hi} *)
| Seq (r1 r2 : regex)
| Group (gid : nat) (name : string) (r : regex).

Definition charset_ok (a : charset) (c : ascii) : bool :=
  match a with
  | In_ ranges => existsb (λ r, in_range r.1 r.2 c) ranges
  | Any => negb (Ascii.eqb c NL)
  | Literal d => Ascii.eqb c d
  end.

(** ** Regular expressions: the backtracking matcher *)

(** Group marks: group number, start and end offsets in the subject. *)
Definition marks := list (nat * (nat * nat)).

(** Length of the longest prefix of [s] inside the set, capped by [hi]. *)
Fixpoint run_length (a : charset) (hi : option nat) (s : text) : nat :=
  match hi with
  | Some 0 => 0
  | _ =>
    match s with
    | c :: t =>
        if charset_ok a c
        then S (run_length a (pred <$> hi) t)
        else 0
    | [] => 0
    end
  end.

(** Greedy repetition: try the longest count first and give characters
    back one at a time down to [lo]. *)
Fixpoint backtrack {A} (n lo : nat) (try : nat → option A) : option A :=
  if (n <? lo)%nat then None
  else match try n with
       | Some x => Some x
       | None => match n with
                 | 0 => None
                 | S n' => backtrack n' lo try
                 end
       end.

(** [run r s pos g k]: match [r] at the head of [s], which is the subject
    from offset [pos] on; [k] is what remains to be matched. *)
Fixpoint run {A} (r : regex) (s : text) (pos : nat) (g : marks)
    (k : text → nat → marks → option A) : option A :=
  match r with
  | Empty => k s pos g
  | Atom a =>
      match s with
      | c :: t => if charset_ok a c then k t (S pos) g else None
      | [] => None
      end
  | MaxRepeat lo hi a =>
      backtrack (run_length a hi s) lo (λ j, k (drop j s) (pos + j) g)
  | Seq r1 r2 => run r1 s pos g (λ s' pos' g', run r2 s' pos' g' k)
  | Group gid _ r' =>
      run r' s pos g (λ s' pos' g', k s' pos' ((gid, (pos, pos')) :: g'))
  end.

(** A match object: the subject, the span of the whole match, the marks of
    the groups and the names of the pattern's groups. *)
Record Match : Type := {
  m_string : text;
  m_start : nat;
  m_end : nat;
  m_marks : marks;
  m_groupindex : list (string * nat)
}.

Fixpoint groupindex (r : regex) : list (string * nat) :=
  match r with
  | Seq r1 r2 => groupindex r1 ++ groupindex r2
  | Group gid name r' => (name, gid) :: groupindex r'
  | _ => []
  end.

Fixpoint groups (r : regex) : nat :=
  match r with
  | Seq r1 r2 => groups r1 + groups r2
  | Group _ _ r' => S (groups r')
  | _ => 0
  end.

(** One attempt at offset [pos]; [must_advance] refuses an empty match. *)
Definition match_at (r : regex) (subject s : text) (pos : nat)
    (must_advance : bool) : option Match :=
  run r s pos []
    (λ _ e g, if must_advance && (e =? pos)%nat then None
              else Some {| m_string := subject; m_start := pos; m_end := e;
                           m_marks := g; m_groupindex := groupindex r |}).

(** [Pattern.search]: the first offset at which an attempt succeeds. *)
Fixpoint search_from (r : regex) (subject s : text) (pos : nat) : option Match :=
  match match_at r subject s pos false with
  | Some m => Some m
  | None =>
      match s with
      | [] => None
      | _ :: t => search_from r subject t (S pos)
      end
  end.

Definition search (r : regex) (subject : text) : option Match :=
  search_from r subject subject 0.

Definition slice (s : text) (a b : nat) : text := take (b - a) (drop a s).

Definition assoc {K V} `{EqDecision K} (k : K) (l : list (K * V)) : option V :=
  snd <$> find (λ p, bool_decide (p.1 = k)) l.

(** [m.group(i)]; a group that took no part in the match is [None]. *)
Definition group (m : Match) (gid : nat) : option text :=
  match gid with
  | 0 => Some (slice (m_string m) (m_start m) (m_end m))
  | _ => (λ se : nat * nat, slice (m_string m) se.1 se.2) <$> assoc gid (m_marks m)
  end.

(** [m.groupdict()]: the named groups. *)
Definition groupdict (m : Match) : list (string * option text) :=
  (λ ng : string * nat, (ng.1, group m ng.2)) <$> m_groupindex m.

(** [d.get(key)] on a groupdict. *)
Definition gd_get (d : list (string * option text)) (key : string) : option text :=
  mjoin (assoc key d).

(** ** Replacement templates ([re._parser.parse_template]) *)

Inductive titem : Type :=
| TLit (c : ascii)
| TGroup (gid : nat).

(** Where the parser is: in plain text, or inside the name of [\g<name>]. *)
Inductive tmode : Type :=
| Plain
| GName (acc : text).

Definition ESCAPES (c : ascii) : option ascii :=
  if Ascii.eqb c "a" then Some BEL
  else if Ascii.eqb c "b" then Some BS
  else if Ascii.eqb c "f" then Some FF
  else if Ascii.eqb c "n" then Some NL
  else if Ascii.eqb c "r" then Some CR
  else if Ascii.eqb c "t" then Some TAB
  else if Ascii.eqb c "v" then Some VT
  else if Ascii.eqb c BACKSLASH then Some BACKSLASH
  else None.

Definition int_of_digits (ds : text) : nat :=
  foldl (λ n d, 10 * n + digit_val d) 0 ds.

(** The group a name of [\g<name>] stands for: a number when the name is
    made of decimal digits, else a named group of the pattern. *)
Definition group_of_name (gi : list (string * nat)) (name : text) : option nat :=
  match name with
  | [] => None
  | _ => if forallb is_digit name then Some (int_of_digits name)
         else assoc (string_of_list_ascii name) gi
  end.

(** [addgroup]: a reference beyond the pattern's groups is an error. *)
Definition addgroup (ngroups index : nat) (rest : list titem) : pyresult (list titem) :=
  if (ngroups <? index)%nat then Raise re_error else Ok (TGroup index :: rest).

Fixpoint parse_template (ngroups : nat) (gi : list (string * nat))
    (mode : tmode) (s : text) : pyresult (list titem) :=
  match mode, s with
  | GName _, [] => Raise re_error                       (* missing > *)
  | GName acc, c :: t =>
      if Ascii.eqb c ">" then
        match group_of_name gi acc with
        | None => Raise re_error                        (* missing or unknown name *)
        | Some index =>
            rest ← parse_template ngroups gi Plain t;
            addgroup ngroups index rest
        end
      else parse_template ngroups gi (GName (acc ++ [c])) t
  | Plain, [] => Ok []
  | Plain, c :: t =>
      if negb (Ascii.eqb c BACKSLASH) then
        rest ← parse_template ngroups gi Plain t; Ok (TLit c :: rest)
      else
        match t with
        | [] => Raise re_error                          (* bad escape (end of pattern) *)
        | d :: t1 =>
            if Ascii.eqb d "g" then
              match t1 with
              | "<" :: t2 => parse_template ngroups gi (GName []) t2
              | _ => Raise re_error                     (* missing < *)
              end
            else if Ascii.eqb d "0" then
              (* octal escape of up to three digits *)
              match t1 with
              | o1 :: t2 =>
                  if is_octdigit o1 then
                    match t2 with
                    | o2 :: t3 =>
                        if is_octdigit o2 then
                          rest ← parse_template ngroups gi Plain t3;
                          Ok (TLit (ascii_of_nat (8 * digit_val o1 + digit_val o2)) :: rest)
                        else
                          rest ← parse_template ngroups gi Plain t2;
                          Ok (TLit (ascii_of_nat (digit_val o1)) :: rest)
                    | [] =>
                        rest ← parse_template ngroups gi Plain t2;
                        Ok (TLit (ascii_of_nat (digit_val o1)) :: rest)
                    end
                  else
                    rest ← parse_template ngroups gi Plain t1;
                    Ok (TLit (ascii_of_nat 0) :: rest)
              | [] => Ok [TLit (ascii_of_nat 0)]
              end
            else if is_digit d then
              match t1 with
              | d2 :: t2 =>
                  if is_digit d2 then
                    match t2 with
                    | d3 :: t3 =>
                        if is_octdigit d && is_octdigit d2 && is_octdigit d3 then
                          let c := 64 * digit_val d + 8 * digit_val d2 + digit_val d3 in
                          if (255 <? c)%nat then Raise re_error
                          else rest ← parse_template ngroups gi Plain t3;
                               Ok (TLit (ascii_of_nat c) :: rest)
                        else
                          rest ← parse_template ngroups gi Plain t2;
                          addgroup ngroups (10 * digit_val d + digit_val d2) rest
                    | [] =>
                        rest ← parse_template ngroups gi Plain t2;
                        addgroup ngroups (10 * digit_val d + digit_val d2) rest
                    end
                  else
                    rest ← parse_template ngroups gi Plain t1;
                    addgroup ngroups (digit_val d) rest
              | [] => addgroup ngroups (digit_val d) []
              end
            else
              match ESCAPES d with
              | Some e => rest ← parse_template ngroups gi Plain t1; Ok (TLit e :: rest)
              | None =>
                  if is_ascii_letter d then Raise re_error     (* bad escape *)
                  else rest ← parse_template ngroups gi Plain t1;
                       Ok (TLit c :: TLit d :: rest)
              end
        end
  end.

(** [expand_template]: a group that did not take part expands to nothing. *)
Definition expand_template (tpl : list titem) (m : Match) : text :=
  concat ((λ it, match it with
                 | TLit c => [c]
                 | TGroup gid => default [] (group m gid)
                 end) <$> tpl).

(** ** [re.escape] and the patterns it produces *)

Definition special_chars : text :=
  list_ascii_of_string "()[]{}?*+-|^$\.&~# " ++ [TAB; NL; CR; VT; FF].

Definition is_special (c : ascii) : bool := bool_decide (c ∈ special_chars).

Fixpoint re_escape (pattern : text) : text :=
  match pattern with
  | [] => []
  | c :: t => if is_special c then BACKSLASH :: c :: re_escape t
              else c :: re_escape t
  end.

(** [re.compile] on the patterns [re.escape] produces: a backslash followed
    by a character that is neither a letter nor a digit stands for that
    character, and a character that is not special stands for itself.
    Patterns with other constructs are outside this model ([None]). *)
Fixpoint compile_escaped (pattern : text) : option regex :=
  match pattern with
  | [] => Some Empty
  | c :: t =>
      if Ascii.eqb c BACKSLASH then
        match t with
        | d :: t' =>
            if is_ascii_letter d || is_digit d then None
            else Seq (Atom (Literal d)) <$> compile_escaped t'
        | [] => None
        end
      else if is_special c then None
      else Seq (Atom (Literal c)) <$> compile_escaped t
  end.

(** ** [re.sub] *)

(** The loop of [Pattern.sub]: [s] is the subject from offset [pos] on and
    [skip] counts the characters of the last match still to be stepped
    over. After an empty match the next attempt at the same offset must
    advance. *)
Fixpoint sub_loop (r : regex) (tpl : list titem) (subject s : text)
    (pos skip : nat) : text :=
  match skip with
  | S skip' =>
      match s with
      | [] => []
      | _ :: t => sub_loop r tpl subject t (S pos) skip'
      end
  | 0 =>
      match match_at r subject s pos false with
      | None =>
          match s with
          | [] => []
          | c :: t => c :: sub_loop r tpl subject t (S pos) 0
          end
      | Some m =>
          if (m_end m =? pos)%nat then
            expand_template tpl m ++
            match match_at r subject s pos true with
            | Some m' =>
                expand_template tpl m' ++
                match s with
                | [] => []
                | _ :: t => sub_loop r tpl subject t (S pos) (m_end m' - pos - 1)
                end
            | None =>
                match s with
                | [] => []
                | c :: t => c :: sub_loop r tpl subject t (S pos) 0
                end
            end
          else
            expand_template tpl m ++
            match s with
            | [] => []
            | _ :: t => sub_loop r tpl subject t (S pos) (m_end m - pos - 1)
            end
      end
  end.

(** [re.sub(pattern, repl, string)] for an escaped [pattern]: the template
    is compiled first, so its errors are raised whatever the subject. *)
Definition re_sub (pattern repl string : text) : pyresult text :=
  match compile_escaped pattern with
  | None => Raise re_error
  | Some r =>
      tpl ← parse_template (groups r) (groupindex r) Plain repl;
      Ok (sub_loop r tpl string string 0 0)
  end.

(** ** The line normalizer: [fix_mongodb_objects] *)

(** The pattern of [detect_mongodb_object]: a group named expression made
    of one character of A-Z, one or more of a-zA-Z, an opening parenthesis,
    a group named value holding a greedy run of any characters, and a
    closing parenthesis. *)
Definition RE_MONGODB_OBJECT : regex :=
  Group 1 "expression"
    (Seq (MaxRepeat 1 (Some 1) (In_ [("A", "Z")]))
    (Seq (MaxRepeat 1 None (In_ [("a", "z"); ("A", "Z")]))
    (Seq (Atom (Literal "("))
    (Seq (Group 2 "value" (MaxRepeat 0 None Any))
         (Atom (Literal ")")))))).

Definition replace_mongodb_object (line : text) (mongodb_object : Match) : pyresult text :=
  let matches := groupdict mongodb_object in
  match gd_get matches "expression", gd_get matches "value" with
  | Some expression, Some value => re_sub (re_escape expression) value line
  | _, _ => Raise TypeError
  end.

Definition detect_mongodb_object (line : text) : pyresult text :=
  match search RE_MONGODB_OBJECT line with
  | Some mongodb_object => replace_mongodb_object line mongodb_object
  | None => Ok line
  end.

Definition fix_mongodb_objects (line : text) : pyresult text :=
  detect_mongodb_object line.

(** ** The file pipeline: [update_json_file] *)

(** [fp.readlines()]: the content cut after every newline, terminators
    kept. The content is the decoded text, after the newline translation of
    text mode. *)
Fixpoint readlines (content : text) : list text :=
  match content with
  | [] => []
  | c :: t =>
      if Ascii.eqb c NL then [c] :: readlines t
      else match readlines t with
           | [] => [[c]]
           | l :: ls => (c :: l) :: ls
           end
  end.

(** [open(path)]: the file must exist. *)
Definition open_read (path : string) (fs : gmap string text) : pyresult text :=
  match fs !! path with
  | Some content => Ok content
  | None => Raise FileNotFoundError
  end.

(** [open(path, "w")]: the file is created or truncated. *)
Definition open_write (path : string) (fs : gmap string text) : gmap string text :=
  <[path := []]> fs.

(** [fp.write(data)] on a file opened for writing, seen once it is closed. *)
Definition write (path : string) (data : text) (fs : gmap string text) : gmap string text :=
  alter (λ content, content ++ data) path fs.

(** The call returns its outcome and the file system it leaves. Failures
    of the operating system other than a missing source are not modelled. *)
Definition update_json_file (path output_path : string) (fs : gmap string text)
    : pyresult unit * gmap string text :=
  match open_read path fs with
  | Raise e => (Raise e, fs)
  | Ok content =>
      let lines := readlines content in
      match map_result fix_mongodb_objects lines with
      | Raise e => (Raise e, fs)
      | Ok lines_fixed =>
          let fs_open := open_write output_path fs in
          (Ok (), foldl (λ fs' line, write output_path line fs') fs_open lines_fixed)
      end
  end.

(** ** The loader: [read_udpated_json_file] *)

(** What [json.load] returns: [None], booleans, numbers (kept as their
    literal), strings, lists and dicts with string keys. *)
#[local] Unset Elimination Schemes.
Inductive json : Type :=
| JNull
| JBool (b : bool)
| JNumber (literal : string)
| JString (s : string)
| JArray (items : list json)
| JObject (members : gmap string json).
#[local] Set Elimination Schemes.

(** [v.get(key)]: only a dict has the method; a missing key gives [None]. *)
Definition py_get (v : json) (key : string) : pyresult json :=
  match v with
  | JObject members => Ok (default JNull (members !! key))
  | _ => Raise AttributeError
  end.

(** [v[0]] *)
Definition py_item0 (v : json) : pyresult json :=
  match v with
  | JArray (x :: _) => Ok x
  | JArray [] => Raise IndexError
  | JObject _ => Raise KeyError         (* the keys of a parsed dict are strings *)
  | JString (String c _) => Ok (JString (String c EmptyString))
  | JString EmptyString => Raise IndexError
  | _ => Raise TypeError
  end.

Record Row : Type := {
  customer_id : json;
  rewards_amount : json;
  rewards_currency : json;
  grant_time : json
}.

(** The projection of [read_udpated_json_file] from the value [result] of
    [json.load]; the entries of the dict display are evaluated in order.
    Reading the file, parsing it and wrapping the row in a DataFrame are
    outside the model. *)
Definition read_udpated_json_file (result : json) : pyresult Row :=
  member ← py_get result "member";
  v_customer_id ← py_get member "customer_id";
  rewards ← py_get result "rewards";
  v_amount ← py_get rewards "amount";
  rewards' ← py_get result "rewards";
  v_currency ← py_get rewards' "currency";
  rewards_results ← py_get result "rewards_results";
  first ← py_item0 rewards_results;
  v_grant_time ← py_get first "grant_time";
  Ok {| customer_id := v_customer_id; rewards_amount := v_amount;
        rewards_currency := v_currency; grant_time := v_grant_time |}.

(** ** Vocabulary of the specification *)

Definition is_upper (c : ascii) : bool := charset_ok (In_ [("A", "Z")]) c.
Definition is_letter (c : ascii) : bool := charset_ok (In_ [("a", "z"); ("A", "Z")]) c.

(** The text [Identifier(Payload)] with the identifier split into its
    first character and the others. *)
Definition expression_text (U : ascii) (ident value : text) : text :=
  U :: ident ++ LPAREN :: value ++ [RPAREN].

(** An uppercase letter, one or more letters, and a payload that stays on
    one line. *)
Definition constructor_shape (U : ascii) (ident value : text) : Prop :=
  is_upper U = true ∧ ident ≠ [] ∧ Forall (λ c, is_letter c = true) ident ∧
  NL ∉ value.

(** [s] starts with a constructor expression. *)
Definition constructor_at (s : text) : Prop :=
  ∃ U ident value rest,
    s = expression_text U ident value ++ rest ∧ constructor_shape U ident value.

(** [line] contains a constructor expression. *)
Definition has_constructor (line : text) : Prop :=
  ∃ pre s, line = pre ++ s ∧ constructor_at s.

(** A line as [readlines] yields them: no newline but at the very end. *)
Definition single_line (line : text) : Prop :=
  ∀ pre suf, line = pre ++ NL :: suf → suf = [].

(** The part of [s] on the current line. *)
Fixpoint upto_newline (s : text) : text :=
  match s with
  | [] => []
  | c :: t => if Ascii.eqb c NL then [] else c :: upto_newline t
  end.

(** The match object of an attempt at offset [pos] that took [n] letters
    after the first and a payload of [j] characters. *)
Definition match_found (subject : text) (pos n j : nat) : Match :=
  {| m_string := subject; m_start := pos; m_end := S (S (pos + 1 + n) + j);
     m_marks := [(1, (pos, S (S (pos + 1 + n) + j)));
                 (2, (S (pos + 1 + n), S (pos + 1 + n) + j))];
     m_groupindex := groupindex RE_MONGODB_OBJECT |}.

(** What is left to match once the opening parenthesis is read, with [j]
    characters given to the payload. *)
Definition payload_try (subject : text) (pos n : nat) (t2 : text) (j : nat) : option Match :=
  match drop j t2 with
  | c :: _ => if Ascii.eqb c ")" then Some (match_found subject pos n j) else None
  | [] => None
  end.

(** What the detector finds in [line]: the leftmost constructor expression,
    its payload running to the last closing parenthesis before the end of
    the line it starts on. *)
Definition detected (line pre : text) (U : ascii) (ident value suf : text) : Prop :=
  line = pre ++ expression_text U ident value ++ suf ∧
  constructor_shape U ident value ∧
  (RPAREN ∉ upto_newline suf) ∧
  ∀ a b, line = a ++ b → length a < length pre → ¬ constructor_at b.

(** The pattern that matches [p] and nothing else. *)
Definition literal_regex (p : text) : regex :=
  foldr (λ c r, Seq (Atom (Literal c)) r) Empty p.

(** The number of lines a reader of [content] gets. *)
Definition line_count (content : text) : nat := length (readlines content).

Definition str (s : string) : text := list_ascii_of_string s.

(** The number of newline characters of a text. *)
Definition newlines (s : text) : nat := length (filter (λ c, c = NL) s).

(** [single_line] as a test. *)
Fixpoint single_lineb (s : text) : bool :=
  match s with
  | [] => true
  | c :: t => if Ascii.eqb c NL then bool_decide (t = []) else single_lineb t
  end.

(** The payload the detector finds in [line], if it finds one, holds no
    backslash. *)
Definition plain_payload (line : text) : Prop :=
  ∀ m value,
    search RE_MONGODB_OBJECT line = Some m →
    gd_get (groupdict m) "value" = Some value →
    BACKSLASH ∉ value.

(** [plain_payload] as a test. *)
Definition plain_payloadb (line : text) : bool :=
  match search RE_MONGODB_OBJECT line with
  | Some m =>
      match gd_get (groupdict m) "value" with
      | Some value => bool_decide (BACKSLASH ∉ value)
      | None => true
      end
  | None => true
  end.

(** * Properties

    ** Greedy repetition *)

Section backtrack.
Context {A : Type}.
Implicit Types (try : nat → option A).

Lemma backtrack_None n lo try :
  backtrack n lo try = None ↔ ∀ j, lo ≤ j ≤ n → try j = None.
Proof.
  induction n as [|n IH]; simpl.
  - destruct lo; simpl.
    + destruct (try 0) eqn:E; split; try done.
      * intros H. rewrite H in E; [done | lia].
      * intros _ j Hj. by replace j with 0 by lia.
    + split; [intros _ j Hj; lia | done].
  - destruct (S n <? lo)%nat eqn:Hlt.
    + apply Nat.ltb_lt in Hlt. split; [intros _ j Hj; lia | done].
    + apply Nat.ltb_ge in Hlt.
      destruct (try (S n)) eqn:E.
      * split; [done | intros H; rewrite H in E; [done | lia]].
      * rewrite IH. split; intros H j Hj.
        -- destruct (decide (j = S n)) as [-> | ?]; [done | apply H; lia].
        -- apply H; lia.
Qed.

Lemma backtrack_Some n lo try x :
  backtrack n lo try = Some x ↔
  ∃ j, lo ≤ j ≤ n ∧ try j = Some x ∧ ∀ j', j < j' ≤ n → try j' = None.
Proof.
  induction n as [|n IH]; simpl.
  - destruct lo; simpl.
    + split.
      * destruct (try 0) eqn:E; [|done]. intros [= ->].
        exists 0. split_and!; [lia | lia | done | intros; lia].
      * intros (j & Hj & E & _). replace j with 0 in E by lia. by rewrite E.
    + split; [done | intros (j & Hj & _); lia].
  - destruct (S n <? lo)%nat eqn:Hlt.
    + apply Nat.ltb_lt in Hlt. split; [done | intros (j & Hj & _); lia].
    + apply Nat.ltb_ge in Hlt.
      destruct (try (S n)) eqn:E.
      * split.
        -- intros [= ->]. exists (S n). split_and!; [lia | lia | done | intros; lia].
        -- intros (j & Hj & Ej & Hmax).
           destruct (decide (j = S n)) as [-> | ?]; [congruence |].
           rewrite Hmax in E; [done | lia].
      * rewrite IH. split; intros (j & Hj & Ej & Hmax); exists j.
        -- split_and!; [lia | lia | done |]. intros j' Hj'.
           destruct (decide (j' = S n)) as [-> | ?]; [done | apply Hmax; lia].
        -- assert (j ≠ S n) by congruence.
           split_and!; [lia | lia | done |]. intros j' Hj'. apply Hmax; lia.
Qed.
End backtrack.

Section run_length.
Variable a : charset.

Lemma run_length_nil hi : run_length a hi [] = 0.
Proof. by destruct hi as [[|?]|]. Qed.

Lemma run_length_app_all l s :
  Forall (λ c, charset_ok a c = true) l →
  run_length a None (l ++ s) = length l + run_length a None s.
Proof. induction 1 as [|c l Hc _ IH]; simpl; [done | by rewrite Hc, IH]. Qed.

Lemma run_length_stop c s :
  charset_ok a c = false → run_length a None (c :: s) = 0.
Proof. simpl. by intros ->. Qed.

Lemma run_length_split s :
  ∃ l r, s = l ++ r ∧ length l = run_length a None s ∧
         Forall (λ c, charset_ok a c = true) l ∧
         match r with [] => True | c :: _ => charset_ok a c = false end.
Proof.
  induction s as [|c s (l & r & -> & Hlen & Hl & Hr)]; simpl.
  - by exists [], [].
  - destruct (charset_ok a c) eqn:Hc.
    + exists (c :: l), r. simpl. rewrite Hlen. by split_and!; [| | constructor |].
    + exists [], (c :: l ++ r). by split_and!.
Qed.
End run_length.

(** ** Characters and lines *)

Lemma backtrack_exact {A} n (try : nat → option A) : backtrack n n try = try n.
Proof.
  destruct n as [|n]; simpl.
  - by destruct (try 0).
  - rewrite Nat.ltb_irrefl. destruct (try (S n)); [done |].
    destruct n; simpl; [done |].
    by rewrite (proj2 (Nat.ltb_lt _ _)) by lia.
Qed.

Lemma backtrack_top {A} n lo (try : nat → option A) :
  (∀ j, j < n → try j = None) →
  backtrack n lo try = if (n <? lo)%nat then None else try n.
Proof.
  intros Hlow. destruct (n <? lo)%nat eqn:Hlt.
  - apply backtrack_None. apply Nat.ltb_lt in Hlt. intros; lia.
  - apply Nat.ltb_ge in Hlt. destruct (try n) as [x|] eqn:E.
    + apply backtrack_Some. exists n. split_and!; [lia | lia | done | intros; lia].
    + apply backtrack_None. intros j Hj.
      destruct (decide (j = n)) as [-> | ?]; [done | apply Hlow; lia].
Qed.

Lemma eqb_NL_false c : charset_ok Any c = true ↔ c ≠ NL.
Proof.
  simpl. rewrite negb_true_iff. split.
  - intros H ->. by rewrite Ascii.eqb_refl in H.
  - intros H. by apply Ascii.eqb_neq.
Qed.

Lemma upto_newline_id l : NL ∉ l → upto_newline l = l.
Proof.
  induction l as [|c l IH]; simpl; [done |]. intros H.
  apply not_elem_of_cons in H as [Hc Hl].
  rewrite (proj2 (Ascii.eqb_neq _ _)) by done. by rewrite IH.
Qed.

Lemma upto_newline_app l r :
  NL ∉ l → upto_newline (l ++ r) = l ++ upto_newline r.
Proof.
  induction l as [|c l IH]; simpl; [done |]. intros H.
  apply not_elem_of_cons in H as [Hc Hl].
  rewrite (proj2 (Ascii.eqb_neq _ _)) by done. by rewrite IH.
Qed.

Lemma Forall_not_newline l :
  Forall (λ c, charset_ok Any c = true) l ↔ NL ∉ l.
Proof.
  rewrite Forall_forall. split.
  - intros H Hin. apply H in Hin. by apply eqb_NL_false in Hin.
  - intros H c Hc. apply eqb_NL_false. by intros ->.
Qed.

Lemma letter_not_lparen c : is_letter c = true → c ≠ LPAREN.
Proof. intros H ->. by vm_compute in H. Qed.

(** ** One attempt of the detector *)

Lemma backtrack_ext {A} n lo (f g : nat → option A) :
  (∀ j, f j = g j) → backtrack n lo f = backtrack n lo g.
Proof.
  intros H. induction n as [|n IH]; simpl; rewrite H; [done |]. by rewrite IH.
Qed.

Lemma run_length_zero_cap a s : run_length a (Some 0) s = 0.
Proof. by destruct s. Qed.

Lemma drop_in_run a j t :
  j < run_length a None t →
  ∃ c t', drop j t = c :: t' ∧ charset_ok a c = true.
Proof.
  revert j. induction t as [|c t IH]; intros j; simpl; [lia |].
  destruct (charset_ok a c) eqn:Hc; [|lia].
  destruct j as [|j]; simpl; [eauto |]. intros Hj. apply IH. lia.
Qed.

Lemma match_at_unfold subject U t pos :
  match_at RE_MONGODB_OBJECT subject (U :: t) pos false =
  if is_upper U then
    let n := run_length (In_ [("a", "z"); ("A", "Z")]) None t in
    if (n <? 1)%nat then None
    else match drop n t with
         | c :: t2 =>
             if Ascii.eqb c "(" then
               backtrack (run_length Any None t2) 0 (payload_try subject pos n t2)
             else None
         | [] => None
         end
  else None.
Proof.
  unfold match_at, RE_MONGODB_OBJECT. cbn [run].
  cbn [run_length fmap option_fmap option_map pred].
  fold (is_upper U). destruct (is_upper U); [|done].
  rewrite run_length_zero_cap, backtrack_exact.
  change (drop 1 (U :: t)) with t.
  rewrite backtrack_top.
  - cbv zeta. set (n := run_length _ None t). destruct (n <? 1)%nat; [done |].
    destruct (drop n t) as [|c t2]; [done |]. cbn [charset_ok].
    destruct (Ascii.eqb c "("); [|done].
    apply backtrack_ext. intros j. unfold payload_try.
    destruct (drop j t2); [done |]. cbn [charset_ok andb]. done.
  - intros j Hj. apply drop_in_run in Hj as (c & t' & -> & Hc).
    cbn [charset_ok]. destruct (Ascii.eqb_spec c "(") as [-> | ?]; [|done].
    by vm_compute in Hc.
Qed.

Lemma match_at_nil subject pos :
  match_at RE_MONGODB_OBJECT subject [] pos false = None.
Proof. reflexivity. Qed.

Lemma no_rparen_upto t :
  (∀ i r, i < run_length Any None t → drop i t ≠ RPAREN :: r) →
  RPAREN ∉ upto_newline t.
Proof.
  induction t as [|c t IH]; intros H; simpl; [apply not_elem_of_nil |].
  destruct (Ascii.eqb_spec c NL) as [-> | Hc]; [apply not_elem_of_nil |].
  assert (Hrun : run_length Any None (c :: t) = S (run_length Any None t)).
  { simpl. by rewrite (proj2 (Ascii.eqb_neq _ _)) by done. }
  rewrite Hrun in H. apply not_elem_of_cons. split.
  - intros <-. apply (H 0 t); [lia | done].
  - apply IH. intros i r Hi. apply (H (S i) r). lia.
Qed.

Lemma payload_greedy t2 j rest :
  drop j t2 = (RPAREN :: rest) →
  j ≤ run_length Any None t2 →
  (∀ j', j < j' ≤ run_length Any None t2 → ∀ r, drop j' t2 ≠ RPAREN :: r) →
  (NL ∉ take j t2) ∧ (RPAREN ∉ upto_newline rest).
Proof.
  revert j. induction t2 as [|c t2 IH]; intros j Hdrop Hj Hmax.
  - by destruct j.
  - destruct j as [|j].
    + simpl in Hdrop. injection Hdrop as -> ->. split; [apply not_elem_of_nil |].
      apply no_rparen_upto. intros i r Hi. apply (Hmax (S i)).
      change (run_length Any None (RPAREN :: rest)) with (S (run_length Any None rest)).
      lia.
    + simpl in Hj. destruct (Ascii.eqb_spec c NL) as [-> | Hc]; simpl in Hj; [lia |].
      destruct (IH j) as [Hv Hr]; [done | lia | |].
      * intros j' Hj' r. apply (Hmax (S j')). simpl.
        rewrite (proj2 (Ascii.eqb_neq _ _)) by done. simpl. lia.
      * split; [|done]. simpl. apply not_elem_of_cons. split; [done | exact Hv].
Qed.

Lemma payload_try_Some subject pos n t2 j m :
  payload_try subject pos n t2 j = Some m ↔
  (∃ rest, drop j t2 = RPAREN :: rest) ∧ m = match_found subject pos n j.
Proof.
  unfold payload_try. destruct (drop j t2) as [|c rest].
  - split; [done | by intros [[? ?] _]].
  - destruct (Ascii.eqb_spec c ")") as [-> | Hc].
    + split; [intros [= <-]; eauto | by intros [_ ->]].
    + split; [done | intros [[? [= ? ?]] _]; done].
Qed.

Lemma payload_try_None subject pos n t2 j :
  payload_try subject pos n t2 j = None ↔ ∀ rest, drop j t2 ≠ RPAREN :: rest.
Proof.
  unfold payload_try. destruct (drop j t2) as [|c rest].
  - split; [done | done].
  - destruct (Ascii.eqb_spec c ")") as [-> | Hc].
    + split; [done | intros H; by destruct (H rest)].
    + split; [intros _ r [= ? ?]; done | done].
Qed.

Lemma match_at_Some subject s pos m :
  match_at RE_MONGODB_OBJECT subject s pos false = Some m →
  ∃ U ident value rest,
    s = (expression_text U ident value ++ rest) ∧
    constructor_shape U ident value ∧
    (RPAREN ∉ upto_newline rest) ∧
    m = match_found subject pos (length ident) (length value).
Proof.
  destruct s as [|U t]; [done |]. rewrite match_at_unfold.
  destruct (is_upper U) eqn:HU; [|done]. cbv zeta.
  destruct (run_length_split (In_ [("a", "z"); ("A", "Z")]) t)
    as (ident & r & -> & Hlen & Hident & Hr).
  rewrite <- Hlen. destruct (length ident <? 1)%nat eqn:Hn; [done |].
  apply Nat.ltb_ge in Hn. rewrite drop_app_length.
  destruct r as [|c t2]; [done |].
  destruct (Ascii.eqb_spec c "(") as [-> | ?]; [|done].
  intros Hbt. apply backtrack_Some in Hbt as (j & Hj & Htry & Hmax).
  apply payload_try_Some in Htry as [[rest Hdrop] ->].
  destruct (payload_greedy t2 j rest) as [Hv Hrest]; [done | lia | |].
  { intros j' Hj' r'. apply (payload_try_None subject pos (length ident)).
    apply Hmax. lia. }
  assert (Hlt : j < length t2).
  { destruct (decide (j < length t2)) as [?|Hge]; [done |].
    rewrite drop_ge in Hdrop by lia. done. }
  exists U, ident, (take j t2), rest. split_and!.
  - unfold expression_text. simpl. f_equal. rewrite <- !app_assoc. simpl.
    do 2 f_equal. rewrite <- app_assoc. simpl. rewrite <- Hdrop.
    by rewrite take_drop.
  - unfold constructor_shape.
    split_and!; [done | intros ->; simpl in Hn; lia | done | done].
  - done.
  - by rewrite length_take_le by lia.
Qed.

Lemma match_at_constructor subject s pos :
  constructor_at s → match_at RE_MONGODB_OBJECT subject s pos false ≠ None.
Proof.
  intros (U & ident & value & rest & -> & HU & Hne & Hident & Hv).
  unfold expression_text. rewrite <- app_comm_cons, match_at_unfold, HU. cbv zeta.
  rewrite <- app_assoc, run_length_app_all by done.
  rewrite <- app_comm_cons, run_length_stop by done.
  rewrite Nat.add_0_r.
  destruct (length ident <? 1)%nat eqn:Hn.
  { apply Nat.ltb_lt in Hn. destruct ident; simpl in Hn; [done | lia]. }
  rewrite drop_app_length. change (Ascii.eqb LPAREN "(") with true. cbv iota.
  intros Hbt. rewrite backtrack_None in Hbt.
  specialize (Hbt (length value)). rewrite payload_try_None in Hbt.
  eapply Hbt.
  - rewrite <- app_assoc, run_length_app_all by by apply Forall_not_newline. lia.
  - by rewrite <- app_assoc, drop_app_length.
Qed.

Lemma match_at_None subject s pos :
  match_at RE_MONGODB_OBJECT subject s pos false = None ↔ ¬ constructor_at s.
Proof.
  split.
  - intros H Hc. by apply (match_at_constructor subject s pos) in Hc.
  - intros Hn. destruct (match_at _ _ _ _ _) as [m|] eqn:E; [|done].
    apply match_at_Some in E as (U & ident & value & rest & -> & Hs & _).
    destruct Hn. by exists U, ident, value, rest.
Qed.

(** ** The search of the detector *)

Lemma search_from_None subject s pos :
  search_from RE_MONGODB_OBJECT subject s pos = None ↔
  ∀ a b, s = a ++ b → ¬ constructor_at b.
Proof.
  revert pos. induction s as [|c s IH]; intros pos; cbn [search_from].
  - rewrite match_at_nil. split; [|done]. intros _ a b Hab.
    symmetry in Hab. apply app_eq_nil in Hab as [_ ->].
    by apply (match_at_None subject [] 0).
  - destruct (match_at _ _ (c :: s) _ _) as [m|] eqn:E.
    + split; [done |]. intros H.
      assert (Hn : ¬ constructor_at (c :: s)) by by apply (H []).
      apply (match_at_None subject _ pos) in Hn. congruence.
    + rewrite IH. apply (match_at_None subject) in E. split.
      * intros H [|x a] b Hab; simpl in Hab; [by subst b |].
        injection Hab as -> ->. by apply (H a).
      * intros H a b ->. by apply (H (c :: a)).
Qed.

Lemma search_from_Some subject s pos m :
  search_from RE_MONGODB_OBJECT subject s pos = Some m →
  ∃ s1 s2, s = s1 ++ s2 ∧
    match_at RE_MONGODB_OBJECT subject s2 (pos + length s1) false = Some m ∧
    ∀ a b, s = a ++ b → length a < length s1 → ¬ constructor_at b.
Proof.
  revert pos. induction s as [|c s IH]; intros pos; cbn [search_from].
  - by rewrite match_at_nil.
  - destruct (match_at _ _ (c :: s) _ _) as [m'|] eqn:E.
    + intros [= ->]. exists [], (c :: s). simpl. rewrite Nat.add_0_r.
      split_and!; [done | done | intros; lia].
    + intros H. apply IH in H as (s1 & s2 & -> & Hm & Hleft).
      exists (c :: s1), s2. simpl.
      replace (pos + S (length s1)) with (S pos + length s1) by lia.
      split_and!; [done | done |].
      intros [|x a] b Hab Hlen; simpl in *.
      * subst b. by apply (match_at_None subject) in E.
      * injection Hab as -> Hab. apply (Hleft a); [done | lia].
Qed.

Lemma slice_middle (pre mid suf : text) a b :
  a = length pre → b = a + length mid →
  slice (pre ++ mid ++ suf) a b = mid.
Proof.
  intros -> ->. unfold slice.
  rewrite drop_app_length. replace (_ + _ - _) with (length mid) by lia.
  by rewrite take_app_length.
Qed.

Lemma length_expression_text U ident value :
  length (expression_text U ident value) = 3 + length ident + length value.
Proof. unfold expression_text. simpl. rewrite !length_app. simpl. rewrite length_app. simpl. lia. Qed.

#[local] Arguments slice : simpl never.

Lemma groupdict_match_found pre U ident value suf :
  let subject := pre ++ expression_text U ident value ++ suf in
  let m := match_found subject (length pre) (length ident) (length value) in
  gd_get (groupdict m) "expression" = Some (expression_text U ident value) ∧
  gd_get (groupdict m) "value" = Some value.
Proof.
  intros subject m. split.
  - cbn. repeat (case_bool_decide; try done; cbn). f_equal.
    apply slice_middle; [done |].
    rewrite length_expression_text. lia.
  - cbn. repeat (case_bool_decide; try done; cbn). f_equal.
    subst subject. unfold expression_text.
    replace (pre ++ (U :: ident ++ LPAREN :: value ++ [RPAREN]) ++ suf)
      with ((pre ++ U :: ident ++ [LPAREN]) ++ value ++ RPAREN :: suf).
    + apply slice_middle; [|lia]. rewrite !length_app. simpl.
      rewrite length_app. simpl. lia.
    + rewrite <- !app_assoc. simpl. rewrite <- !app_assoc. simpl.
      by rewrite <- !app_assoc.
Qed.

Lemma search_Some line m :
  search RE_MONGODB_OBJECT line = Some m →
  ∃ pre U ident value suf,
    line = pre ++ expression_text U ident value ++ suf ∧
    constructor_shape U ident value ∧
    (RPAREN ∉ upto_newline suf) ∧
    (∀ a b, line = a ++ b → length a < length pre → ¬ constructor_at b) ∧
    gd_get (groupdict m) "expression" = Some (expression_text U ident value) ∧
    gd_get (groupdict m) "value" = Some value.
Proof.
  unfold search. intros H.
  apply search_from_Some in H as (pre & s2 & Hline & Hm & Hleft).
  apply match_at_Some in Hm as (U & ident & value & suf & -> & Hshape & Hsuf & ->).
  exists pre, U, ident, value, suf. subst line.
  split_and!; [done | done | done | done | |];
    apply (groupdict_match_found pre U ident value suf).
Qed.

Lemma search_None line :
  search RE_MONGODB_OBJECT line = None ↔ ¬ has_constructor line.
Proof.
  unfold search. rewrite search_from_None. unfold has_constructor. split.
  - intros H (pre & s & Hl & Hc). by apply (H pre s).
  - intros H a b Hl Hc. apply H. by exists a, b.
Qed.

(** ** Escaped patterns and the substitution loop *)

Lemma special_not_alnum c :
  is_special c = true → is_ascii_letter c || is_digit c = false.
Proof.
  unfold is_special. intros H. apply bool_decide_eq_true in H.
  unfold special_chars in H. simpl in H.
  repeat (apply elem_of_cons in H as [-> | H]; [by vm_compute |]).
  by apply elem_of_nil in H.
Qed.

Lemma backslash_special : is_special BACKSLASH = true.
Proof. by vm_compute. Qed.

Lemma compile_escaped_re_escape p :
  compile_escaped (re_escape p) = Some (literal_regex p).
Proof.
  induction p as [|c p IH]; simpl; [done |].
  destruct (is_special c) eqn:Hs.
  - simpl. rewrite (special_not_alnum c Hs), IH. done.
  - simpl. destruct (Ascii.eqb_spec c BACKSLASH) as [-> | Hc].
    + by rewrite backslash_special in Hs.
    + by rewrite Hs, IH.
Qed.

Lemma groups_literal p : groups (literal_regex p) = 0.
Proof. induction p; simpl; [done | done]. Qed.

Lemma groupindex_literal p : groupindex (literal_regex p) = [].
Proof. induction p; simpl; [done | done]. Qed.

Lemma run_literal_app {A} p rest pos g (k : text → nat → marks → option A) :
  run (literal_regex p) (p ++ rest) pos g k = k rest (pos + length p) g.
Proof.
  revert pos. induction p as [|c p IH]; intros pos; simpl.
  - by rewrite Nat.add_0_r.
  - rewrite Ascii.eqb_refl, IH. f_equal. lia.
Qed.

Lemma run_literal_Some {A} p s pos g (k : text → nat → marks → option A) x :
  run (literal_regex p) s pos g k = Some x → ∃ rest, s = p ++ rest.
Proof.
  revert s pos. induction p as [|c p IH]; intros s pos; simpl; [eauto |].
  destruct s as [|d s]; [done |].
  destruct (Ascii.eqb_spec d c) as [-> | ?]; [|done].
  intros H. apply IH in H as [rest ->]. eauto.
Qed.

Lemma match_at_literal_None p subject s pos ma :
  (∀ rest, s ≠ p ++ rest) →
  match_at (literal_regex p) subject s pos ma = None.
Proof.
  intros H. destruct (match_at _ _ _ _ _) as [m|] eqn:E; [|done].
  apply run_literal_Some in E as [rest ->]. by destruct (H rest).
Qed.

Lemma match_at_literal_Some p subject rest pos :
  p ≠ [] →
  ∃ m, match_at (literal_regex p) subject (p ++ rest) pos false = Some m ∧
       m_end m = pos + length p.
Proof.
  intros Hp. unfold match_at. rewrite run_literal_app. simpl. eauto.
Qed.

Section sub_loop.
Variables (r : regex) (tpl : list titem) (subject : text).

Lemma sub_loop_skip a s pos :
  sub_loop r tpl subject (a ++ s) pos (length a) =
  sub_loop r tpl subject s (pos + length a) 0.
Proof.
  revert pos. induction a as [|c a IH]; intros pos.
  - simpl. by rewrite Nat.add_0_r.
  - cbn [app length sub_loop]. rewrite IH. f_equal. lia.
Qed.
End sub_loop.

Section sub_literal.
Variables (p x : text) (tpl : list titem) (subject : text).
Hypothesis p_nonempty : p ≠ [].
Hypothesis expand_const : ∀ m, expand_template tpl m = x.

Lemma sub_loop_copy s pos :
  (∀ a b rest, s = a ++ b → b ≠ p ++ rest) →
  sub_loop (literal_regex p) tpl subject s pos 0 = s.
Proof.
  revert pos. induction s as [|c s IH]; intros pos H.
  - cbn [sub_loop]. rewrite match_at_literal_None; [done |].
    intros rest. by apply (H []).
  - cbn [sub_loop]. rewrite match_at_literal_None.
    + f_equal. apply IH. intros a b rest ->. by apply (H (c :: a)).
    + intros rest. by apply (H []).
Qed.

Lemma sub_loop_first pre suf pos :
  (∀ a b rest, pre = a ++ b → b ≠ [] → b ++ p ++ suf ≠ p ++ rest) →
  sub_loop (literal_regex p) tpl subject (pre ++ p ++ suf) pos 0 =
  pre ++ x ++ sub_loop (literal_regex p) tpl subject suf
                (pos + length pre + length p) 0.
Proof.
  revert pos. induction pre as [|c pre IH]; intros pos H.
  - cbn [app]. destruct (match_at_literal_Some p subject suf pos p_nonempty)
      as (m & Hm & Hend).
    destruct p as [|d p'] eqn:Hp; [done |].
    cbn [sub_loop app]. cbn [app] in Hm. rewrite Hm, Hend, expand_const.
    destruct (pos + length (d :: p') =? pos)%nat eqn:E.
    { apply Nat.eqb_eq in E. simpl in E. lia. }
    f_equal. replace (pos + length (d :: p') - pos - 1) with (length p')
      by (simpl; lia).
    rewrite sub_loop_skip. f_equal. simpl. lia.
  - cbn [app sub_loop]. rewrite match_at_literal_None.
    + f_equal. rewrite IH.
      * do 3 f_equal. simpl. lia.
      * intros a b rest ->. by apply (H (c :: a)).
    + intros rest. by apply (H [] (c :: pre)).
Qed.
End sub_literal.

Lemma parse_template_plain n gi v :
  BACKSLASH ∉ v → parse_template n gi Plain v = Ok (TLit <$> v).
Proof.
  induction v as [|c v IH]; intros H; [done |].
  apply not_elem_of_cons in H as [Hc Hv]. cbn [parse_template].
  rewrite (proj2 (Ascii.eqb_neq _ _)) by done. cbn [negb].
  by rewrite IH.
Qed.

Lemma expand_template_plain v m : expand_template (TLit <$> v) m = v.
Proof.
  unfold expand_template. induction v as [|c v IH]; [done |].
  cbn. f_equal. exact IH.
Qed.

(** ** The normalizer on a detected expression *)

Lemma single_line_suffix a b : single_line (a ++ b) → single_line b.
Proof.
  intros H pre suf ->. apply (H (a ++ pre) suf). by rewrite <- app_assoc.
Qed.

Lemma single_line_upto s :
  single_line s → RPAREN ∉ upto_newline s → RPAREN ∉ s.
Proof.
  induction s as [|c s IH]; intros Hs; simpl; [done |].
  destruct (Ascii.eqb_spec c NL) as [-> | Hc].
  - rewrite (Hs [] s eq_refl). intros _ Hin.
    apply list_elem_of_singleton in Hin. done.
  - intros Hin. apply not_elem_of_cons in Hin as [? ?].
    apply not_elem_of_cons. split; [done |]. apply IH; [|done].
    by apply (single_line_suffix [c]).
Qed.

Lemma single_line_before a b : single_line (a ++ b) → b ≠ [] → NL ∉ a.
Proof.
  intros Hs Hb Hin. apply list_elem_of_split in Hin as (a1 & a2 & ->).
  specialize (Hs a1 (a2 ++ b)). rewrite <- app_assoc in Hs.
  specialize (Hs eq_refl). apply app_eq_nil in Hs as [_ ?]. done.
Qed.

Lemma rparen_in_expression U ident value : RPAREN ∈ expression_text U ident value.
Proof.
  unfold expression_text. apply elem_of_cons. right.
  apply elem_of_app. right. apply elem_of_cons. right.
  apply elem_of_app. right. apply list_elem_of_singleton. done.
Qed.

Lemma expression_text_nonempty U ident value : expression_text U ident value ≠ [].
Proof. done. Qed.

Lemma detected_no_earlier line pre U ident value suf :
  detected line pre U ident value suf →
  ∀ a b rest, pre = a ++ b → b ≠ [] →
    b ++ expression_text U ident value ++ suf ≠ expression_text U ident value ++ rest.
Proof.
  intros (-> & Hshape & _ & Hleft) a b rest -> Hb Heq.
  apply (Hleft a (b ++ expression_text U ident value ++ suf)).
  - by rewrite <- app_assoc.
  - rewrite length_app. destruct b; [done | simpl; lia].
  - rewrite Heq. by exists U, ident, value, rest.
Qed.

Lemma no_later_occurrence U ident value suf :
  RPAREN ∉ suf →
  ∀ a b rest, suf = a ++ b → b ≠ expression_text U ident value ++ rest.
Proof.
  intros Hsuf a b rest -> ->. apply Hsuf.
  apply elem_of_app. right. apply elem_of_app. left.
  apply rparen_in_expression.
Qed.

Lemma search_detected line m :
  search RE_MONGODB_OBJECT line = Some m →
  ∃ pre U ident value suf,
    detected line pre U ident value suf ∧
    gd_get (groupdict m) "expression" = Some (expression_text U ident value) ∧
    gd_get (groupdict m) "value" = Some value.
Proof.
  intros H. apply search_Some in H
    as (pre & U & ident & value & suf & ? & ? & ? & ? & ? & ?).
  by exists pre, U, ident, value, suf.
Qed.

Lemma has_constructor_search line :
  has_constructor line → ∃ m, search RE_MONGODB_OBJECT line = Some m.
Proof.
  intros H. destruct (search RE_MONGODB_OBJECT line) as [m|] eqn:E; [eauto |].
  by apply search_None in E.
Qed.

Lemma fix_no_constructor line :
  ¬ has_constructor line → fix_mongodb_objects line = Ok line.
Proof.
  intros H. apply search_None in H.
  unfold fix_mongodb_objects, detect_mongodb_object. by rewrite H.
Qed.

(** The call made when the detector has found an expression. *)
Lemma fix_found line m U ident value :
  search RE_MONGODB_OBJECT line = Some m →
  gd_get (groupdict m) "expression" = Some (expression_text U ident value) →
  gd_get (groupdict m) "value" = Some value →
  fix_mongodb_objects line =
  re_sub (re_escape (expression_text U ident value)) value line.
Proof.
  intros Hs He Hv.
  unfold fix_mongodb_objects, detect_mongodb_object, replace_mongodb_object.
  by rewrite Hs, He, Hv.
Qed.

Lemma re_sub_plain p v line :
  BACKSLASH ∉ v →
  re_sub (re_escape p) v line =
  Ok (sub_loop (literal_regex p) (TLit <$> v) line line 0 0).
Proof.
  intros Hv. unfold re_sub.
  rewrite compile_escaped_re_escape, groups_literal, groupindex_literal.
  by rewrite parse_template_plain.
Qed.

Lemma drop_at_run_end s r :
  drop (run_length Any None s) s ≠ RPAREN :: r.
Proof.
  induction s as [|c s IH]; simpl; [done |].
  destruct (Ascii.eqb_spec c NL) as [-> | Hc]; simpl; [done | exact IH].
Qed.

Lemma drop_in_upto s i c r :
  i < run_length Any None s → drop i s = c :: r → c ∈ upto_newline s.
Proof.
  revert i. induction s as [|d s IH]; intros i; simpl; [lia |].
  destruct (Ascii.eqb_spec d NL) as [-> | Hd]; simpl; [lia |].
  destruct i as [|i]; simpl.
  - intros _ [= -> ->]. apply elem_of_cons. by left.
  - intros Hi Hdrop. apply elem_of_cons. right. apply (IH i); [lia | done].
Qed.

Lemma payload_try_greedy subject pos n value suf :
  NL ∉ value → RPAREN ∉ upto_newline suf →
  backtrack (run_length Any None (value ++ RPAREN :: suf)) 0
    (payload_try subject pos n (value ++ RPAREN :: suf)) =
  Some (match_found subject pos n (length value)).
Proof.
  intros Hv Hsuf. apply backtrack_Some. exists (length value).
  assert (Hrun : run_length Any None (value ++ RPAREN :: suf) =
                 length value + S (run_length Any None suf)).
  { rewrite run_length_app_all by by apply Forall_not_newline. done. }
  rewrite Hrun. split_and!; [lia | lia | |].
  - apply payload_try_Some. split; [|done]. exists suf. by rewrite drop_app_length.
  - intros j' Hj'. apply payload_try_None. intros r Hdrop.
    replace j' with (length (value ++ [RPAREN]) + (j' - length value - 1)) in Hdrop
      by (rewrite length_app; simpl; lia).
    rewrite (cons_middle RPAREN value suf), app_assoc, drop_app_add' in Hdrop by done.
    destruct (decide (j' - length value - 1 = run_length Any None suf)) as [E | E].
    + rewrite E in Hdrop. by apply drop_at_run_end in Hdrop.
    + apply Hsuf. apply (drop_in_upto suf (j' - length value - 1) RPAREN r); [lia | done].
Qed.

Lemma detected_match_at subject U ident value suf pos :
  constructor_shape U ident value → RPAREN ∉ upto_newline suf →
  match_at RE_MONGODB_OBJECT subject (expression_text U ident value ++ suf) pos false =
  Some (match_found subject pos (length ident) (length value)).
Proof.
  intros (HU & Hne & Hident & Hv) Hsuf.
  unfold expression_text. rewrite <- app_comm_cons, match_at_unfold, HU. cbv zeta.
  rewrite <- app_assoc, run_length_app_all by done.
  rewrite <- app_comm_cons, run_length_stop by done.
  rewrite Nat.add_0_r.
  destruct (length ident <? 1)%nat eqn:Hn.
  { apply Nat.ltb_lt in Hn. destruct ident; simpl in Hn; [done | lia]. }
  rewrite drop_app_length. change (Ascii.eqb LPAREN "(") with true. cbv iota.
  rewrite <- app_assoc. simpl. by apply payload_try_greedy.
Qed.

Lemma search_from_skip subject pre s pos :
  (∀ a b, pre ++ s = a ++ b → length a < length pre → ¬ constructor_at b) →
  search_from RE_MONGODB_OBJECT subject (pre ++ s) pos =
  search_from RE_MONGODB_OBJECT subject s (pos + length pre).
Proof.
  revert pos. induction pre as [|c pre IH]; intros pos H.
  - simpl. by rewrite Nat.add_0_r.
  - cbn [app search_from].
    rewrite (proj2 (match_at_None subject (c :: pre ++ s) pos)).
    + rewrite IH.
      * f_equal. simpl. lia.
      * intros a b Hab Hlen. apply (H (c :: a) b); [simpl; by f_equal | simpl; lia].
    + apply (H [] (c :: pre ++ s)); [done | simpl; lia].
Qed.

Lemma detected_search line pre U ident value suf :
  detected line pre U ident value suf →
  search RE_MONGODB_OBJECT line =
  Some (match_found line (length pre) (length ident) (length value)).
Proof.
  intros (-> & Hshape & Hsuf & Hleft). unfold search.
  rewrite search_from_skip by done.
  destruct (expression_text U ident value ++ suf) as [|c s] eqn:E; [done |].
  cbn [search_from]. rewrite <- E. by rewrite detected_match_at.
Qed.

Lemma fix_detected line pre U ident value suf :
  detected line pre U ident value suf →
  BACKSLASH ∉ value →
  RPAREN ∉ suf →
  fix_mongodb_objects line = Ok (pre ++ value ++ suf).
Proof.
  intros Hd Hv Hsuf.
  pose proof (detected_search _ _ _ _ _ _ Hd) as Hs.
  pose proof (detected_no_earlier _ _ _ _ _ _ Hd) as Hearly.
  destruct Hd as (Hline & Hshape & _ & Hleft).
  destruct (groupdict_match_found pre U ident value suf) as [He Hval].
  cbv zeta in He, Hval. rewrite <- Hline in He, Hval.
  rewrite (fix_found line _ U ident value Hs He Hval).
  rewrite re_sub_plain by done. f_equal.
  rewrite Hline at 2.
  rewrite (sub_loop_first _ value) by
    (try apply expand_template_plain; try apply expression_text_nonempty; done).
  rewrite sub_loop_copy; [done |].
  by apply no_later_occurrence.
Qed.

(** ** Lines of a file *)

Lemma single_lineb_spec s : single_lineb s = true → single_line s.
Proof.
  induction s as [|c s IH]; simpl.
  - intros _ pre suf H. by destruct pre.
  - destruct (Ascii.eqb_spec c NL) as [-> | Hc].
    + intros H. apply bool_decide_eq_true in H as ->.
      intros [|x pre] suf [= H]; [done |]. by destruct pre.
    + intros H pre suf Heq. destruct pre as [|x pre]; simplify_eq/=.
      by apply (IH H pre suf).
Qed.

Lemma single_line_cons c s : c ≠ NL → single_line s → single_line (c :: s).
Proof.
  intros Hc Hs [|x pre] suf [= ? ?]; subst; [done |]. by apply (Hs pre suf).
Qed.

Lemma concat_readlines content : concat (readlines content) = content.
Proof.
  induction content as [|c s IH]; simpl; [done |].
  destruct (Ascii.eqb c NL); simpl; [by rewrite IH |].
  destruct (readlines s) as [|l ls]; simpl in *; by rewrite <- IH.
Qed.

Lemma readlines_single_line content : Forall single_line (readlines content).
Proof.
  induction content as [|c s IH]; simpl; [constructor |].
  destruct (Ascii.eqb_spec c NL) as [-> | Hc].
  - constructor; [|done]. intros [|x pre] suf [= H]; [done |]. by destruct pre.
  - destruct (readlines s) as [|l ls].
    + constructor; [|done]. apply single_line_cons; [done |].
      intros pre suf H. by destruct pre.
    + inversion IH; subst. constructor; [|done]. by apply single_line_cons.
Qed.

Lemma elem_of_concat_2 (ls : list text) l c : l ∈ ls → c ∈ l → c ∈ concat ls.
Proof.
  induction 1 as [l ls | l' l ls _ IH]; simpl; intros Hc;
    apply elem_of_app; [by left | right; by apply IH].
Qed.

Lemma elem_of_readlines content l c :
  l ∈ readlines content → c ∈ l → c ∈ content.
Proof.
  intros Hl Hc. rewrite <- (concat_readlines content).
  by apply (elem_of_concat_2 _ l).
Qed.

Lemma newlines_app a b : newlines (a ++ b) = newlines a + newlines b.
Proof. unfold newlines. by rewrite filter_app, length_app. Qed.

Lemma newlines_zero s : NL ∉ s → newlines s = 0.
Proof.
  unfold newlines. induction s as [|c s IH]; [done |]. intros H.
  apply not_elem_of_cons in H as [Hc Hs].
  rewrite filter_cons_False by done. by apply IH.
Qed.

Lemma letter_not_newline c : is_letter c = true → c ≠ NL.
Proof. intros H ->. by vm_compute in H. Qed.

Lemma upper_not_newline c : is_upper c = true → c ≠ NL.
Proof. intros H ->. by vm_compute in H. Qed.

Lemma newline_not_in_expression U ident value :
  constructor_shape U ident value → NL ∉ expression_text U ident value.
Proof.
  intros (HU & _ & Hident & Hv). unfold expression_text.
  apply not_elem_of_cons. split; [intros E; by apply (upper_not_newline U) |].
  apply not_elem_of_app. split.
  - intros Hin. rewrite Forall_forall in Hident.
    by apply (letter_not_newline NL (Hident _ Hin)).
  - apply not_elem_of_cons. split; [done |].
    apply not_elem_of_app. split; [done |].
    apply not_elem_of_cons. split; [done | apply not_elem_of_nil].
Qed.

Lemma plain_payloadb_spec line : plain_payloadb line = true → plain_payload line.
Proof.
  unfold plain_payloadb. intros H m value Hm Hv. rewrite Hm, Hv in H.
  by apply bool_decide_eq_true in H.
Qed.

(** A line whose payload holds no backslash is normalized without error,
    to a line with the same newlines. *)
Lemma fix_plain_line line :
  single_line line → plain_payload line →
  ∃ out, fix_mongodb_objects line = Ok out ∧ newlines out = newlines line.
Proof.
  intros Hs Hb. destruct (search RE_MONGODB_OBJECT line) as [m|] eqn:E.
  - destruct (search_detected line m E)
      as (pre & U & ident & value & suf & Hd & _ & Hval).
    pose proof Hd as (Hline & Hshape & Hsuf & _).
    exists (pre ++ value ++ suf). split.
    + apply (fix_detected line pre U ident value suf Hd).
      * by apply (Hb m value).
      * apply single_line_upto; [|done]. rewrite Hline in Hs.
        apply single_line_suffix in Hs. by apply single_line_suffix in Hs.
    + rewrite Hline, !newlines_app.
      rewrite (newlines_zero (expression_text U ident value))
        by by apply newline_not_in_expression.
      destruct Hshape as (_ & _ & _ & Hv). by rewrite (newlines_zero value).
  - exists line. split; [|done]. apply fix_no_constructor. by apply search_None.
Qed.

Lemma map_result_Forall2 {A B} (f : A → pyresult B) (P : A → B → Prop) xs :
  Forall (λ x, ∃ y, f x = Ok y ∧ P x y) xs →
  ∃ ys, map_result f xs = Ok ys ∧ Forall2 P xs ys.
Proof.
  induction 1 as [|x xs (y & Hy & HP) _ (ys & Hys & HF)]; simpl.
  - exists []. by split.
  - exists (y :: ys). rewrite Hy. simpl. rewrite Hys. simpl. split; [done |].
    by constructor.
Qed.

Lemma map_result_Forall2_inv {A B} (f : A → pyresult B) xs ys :
  map_result f xs = Ok ys → Forall2 (λ x y, f x = Ok y) xs ys.
Proof.
  revert ys. induction xs as [|x xs IH]; intros ys; simpl.
  - intros [= <-]. constructor.
  - destruct (f x) as [y|e] eqn:Hy; simpl; [|done].
    destruct (map_result f xs) as [ys'|e]; simpl; [|done].
    intros [= <-]. constructor; [done | by apply IH].
Qed.

Lemma foldl_write output_path lines acc (fs : gmap string text) :
  foldl (λ fs' line, write output_path line fs') (<[output_path := acc]> fs) lines =
  <[output_path := acc ++ concat lines]> fs.
Proof.
  revert acc. induction lines as [|l ls IH]; intros acc; simpl.
  - by rewrite app_nil_r.
  - unfold write at 2. rewrite alter_insert_eq, IH. by rewrite app_assoc.
Qed.

Lemma update_json_file_unfold path output_path (fs : gmap string text) :
  update_json_file path output_path fs =
  match fs !! path with
  | None => (Raise FileNotFoundError, fs)
  | Some content =>
      match map_result fix_mongodb_objects (readlines content) with
      | Raise e => (Raise e, fs)
      | Ok lines_fixed => (Ok (), <[output_path := concat lines_fixed]> fs)
      end
  end.
Proof.
  unfold update_json_file, open_read. destruct (fs !! path) as [content|]; [|done].
  destruct (map_result _ _) as [lines_fixed|e]; [|done].
  unfold open_write. by rewrite foldl_write.
Qed.

(** ** What is left after a replacement *)

Ltac list_norm :=
  unfold expression_text;
  repeat (progress simpl || rewrite <- app_assoc); try done.

Lemma upper_is_letter c : is_upper c = true → is_letter c = true.
Proof.
  unfold is_upper, is_letter. simpl. intros H.
  rewrite orb_false_r in H. rewrite H. by rewrite !orb_true_r.
Qed.

Lemma lparen_not_letter : is_letter LPAREN = false.
Proof. reflexivity. Qed.

(** A constructor expression that starts in the text before the match and
    is seen once the expression is replaced by its payload was there
    before the replacement. *)
Lemma constructor_before_kept b U ident value suf :
  b ≠ [] → NL ∉ b → constructor_shape U ident value → RPAREN ∉ suf →
  constructor_at (b ++ value ++ suf) →
  constructor_at (b ++ expression_text U ident value ++ suf).
Proof.
  intros Hb Hnl (HU & Hne & Hident & Hv) Hsuf
    (U' & ident' & value' & rest' & Heq & HU' & Hne' & Hident' & Hv').
  destruct b as [|c b']; [done |]. unfold expression_text in Heq.
  simpl in Heq. injection Heq as -> Heq. rewrite <- app_assoc in Heq.
  apply not_elem_of_cons in Hnl as [_ Hnl].
  apply app_eq_inv in Heq as [(k & Hb' & Hk) | (k & Hi & Hk)].
  - (* the identifier ends inside [b'] or at its end *)
    destruct k as [|x k].
    + (* [b'] is the identifier: it now runs on into the expression *)
      rewrite app_nil_r in Hb'. subst b'.
      exists U', (ident' ++ U :: ident), value, suf. split.
      * list_norm.
      * split_and!; [done | by destruct ident' | | done].
        apply Forall_app. split; [done |]. constructor; [|done].
        by apply upper_is_letter.
    + (* the parenthesis is in [b'] *)
      simpl in Hk. injection Hk as <- Hk. subst b'.
      exists U', ident', (k ++ U :: ident ++ LPAREN :: value), suf. split.
      * list_norm.
      * split_and!; [done | done | done |].
        apply not_elem_of_app. split.
        { intros Hin. apply Hnl. apply elem_of_app. right.
          apply elem_of_cons. by right. }
        apply not_elem_of_cons. split; [intros E; by apply (upper_not_newline U) |].
        apply not_elem_of_app. split.
        { intros Hin. rewrite Forall_forall in Hident.
          by apply (letter_not_newline NL (Hident _ Hin)). }
        apply not_elem_of_cons. by split.
  - (* the identifier runs beyond [b'] *)
    subst ident'. apply Forall_app in Hident' as [Hb' Hk'].
    exists U', (b' ++ U :: ident), value, suf. split.
    + list_norm.
    + split_and!; [done | by destruct b' | | done].
      apply Forall_app. split; [done |]. constructor; [|done].
      by apply upper_is_letter.
Qed.

(** A constructor expression in [v ++ suf] lies in [v] when [suf] has no
    closing parenthesis. *)
Lemma constructor_in_payload v suf :
  RPAREN ∉ suf → has_constructor (v ++ suf) → has_constructor v.
Proof.
  intros Hsuf (a & s & Heq & U' & ident' & value' & rest' & -> & Hshape).
  apply app_eq_inv in Heq as [(k & -> & Hk) | (k & -> & Hk)].
  - (* the expression starts in the payload *)
    unfold expression_text in Hk.
    replace ((U' :: ident' ++ LPAREN :: value' ++ [RPAREN]) ++ rest')
      with ((U' :: ident' ++ LPAREN :: value') ++ RPAREN :: rest') in Hk
      by list_norm.
    symmetry in Hk.
    apply app_eq_inv in Hk as [(k' & Hk1 & Hk2) | (k' & Hk1 & Hk2)].
    + destruct k' as [|x k'].
      * simpl in Hk2. destruct Hsuf. rewrite <- Hk2. apply elem_of_cons. by left.
      * simpl in Hk2. injection Hk2 as <- Hk2.
        exists a, k. split; [done |].
        exists U', ident', value', k'. split; [|done]. rewrite Hk1.
        list_norm.
    + destruct Hsuf. rewrite Hk2. apply elem_of_app. right.
      apply elem_of_cons. by left.
  - (* the expression starts in the suffix *)
    destruct Hsuf. rewrite Hk. apply elem_of_app. right.
    apply elem_of_app. left. apply rparen_in_expression.
Qed.

(** Once the detected expression is replaced by a payload that holds no
    constructor expression, none is left on the line. *)
Lemma no_constructor_after line pre U ident value suf :
  detected line pre U ident value suf → single_line line →
  ¬ has_constructor value →
  ¬ has_constructor (pre ++ value ++ suf).
Proof.
  intros (Hline & Hshape & Hsuf & Hleft) Hs Hval (a & s & Heq & Hc).
  assert (Hsuf' : RPAREN ∉ suf).
  { apply single_line_upto; [|done]. rewrite Hline in Hs.
    apply single_line_suffix in Hs. by apply single_line_suffix in Hs. }
  assert (Hpre : NL ∉ pre).
  { rewrite Hline in Hs. by apply (single_line_before _ _ Hs). }
  apply app_eq_inv in Heq as [(k & -> & Hk) | (k & -> & Hk)].
  - destruct k as [|x k].
    + simpl in Hk. subst s. apply Hval. apply (constructor_in_payload value suf Hsuf').
      exists [], (value ++ suf). by split.
    + subst s. apply (Hleft a ((x :: k) ++ expression_text U ident value ++ suf)).
      * by rewrite Hline, <- app_assoc.
      * rewrite length_app. simpl. lia.
      * apply constructor_before_kept; [done | | done | done | done].
        intros Hin. apply Hpre. apply elem_of_app. by right.
  - apply Hval. apply (constructor_in_payload value suf Hsuf').
    exists k, s. by split.
Qed.

(** ** The loader *)

Lemma py_get_missing (members : gmap string json) key :
  members !! key = None → py_get (JObject members) key = Ok JNull.
Proof. intros H. simpl. by rewrite H. Qed.

Lemma py_get_present (members : gmap string json) key v :
  members !! key = Some v → py_get (JObject members) key = Ok v.
Proof. intros H. simpl. by rewrite H. Qed.

(** ** The claims of the specification *)

Lemma newlines_concat (xs ys : list text) :
  Forall2 (λ x y, newlines y = newlines x) xs ys →
  newlines (concat ys) = newlines (concat xs).
Proof.
  induction 1 as [|x y xs ys Hxy _ IH]; simpl; [done |].
  by rewrite !newlines_app, Hxy, IH.
Qed.

(** Claim C1, at the inputs where the code departs from it. The claim says
    the matched expression is replaced by the payload as plain characters,
    whatever backslashes the payload holds. [replace_mongodb_object] escapes
    the expression but hands the payload to [re.sub] as a replacement
    template: on a payload holding an escaped backslash the two backslashes
    come out as one, on a payload holding a backslash followed by the
    letter d the call raises [re.error], and on a payload holding a
    backslash followed by the letter n the two characters come out as a
    newline. *)
Theorem replace_expands_payload_escapes :
  fix_mongodb_objects (str "ObjectId(" ++ [DQ] ++ str "a\\b" ++ [DQ] ++ str ")")
    = Ok ([DQ] ++ str "a\b" ++ [DQ]) ∧
  fix_mongodb_objects (str "ObjectId(" ++ [DQ] ++ str "a\db" ++ [DQ] ++ str ")")
    = Raise re_error ∧
  fix_mongodb_objects (str "ObjectId(" ++ [DQ] ++ str "a\nb" ++ [DQ] ++ str ")")
    = Ok ([DQ] ++ str "a" ++ [NL] ++ str "b" ++ [DQ]).
Proof. split_and!; vm_compute; reflexivity. Qed.

(** Claim C2 fails on a file whose last line has no terminator and is a
    constructor expression with an empty payload: the line is rewritten to
    the empty string, so the two lines read give one line written. *)
Lemma line_count_drops_on_empty_last_line :
  let content := str "{" ++ [NL] ++ str "Ab()" in
  let fs : gmap string text := {[ "in"%string := content ]} in
  ∃ out, (update_json_file "in" "out" fs).1 = Ok () ∧
         (update_json_file "in" "out" fs).2 !! "out"%string = Some out ∧
         line_count content = 2 ∧ line_count out = 1.
Proof.
  intros content fs. exists (str "{" ++ [NL]).
  split_and!; vm_compute; reflexivity.
Qed.

(** Claim C2, amended. For every input file on whose lines the payload
    found by the detector holds no backslash, [update_json_file] succeeds
    and writes one string for each line read, in the order read; each is
    the normalized line and holds as many newline characters as the line it
    comes from, so the output has as many line terminators as the input. *)
Theorem update_json_file_plain_lines path output_path (fs : gmap string text) content :
  fs !! path = Some content →
  Forall plain_payload (readlines content) →
  ∃ lines_fixed,
    update_json_file path output_path fs =
      (Ok (), <[output_path := concat lines_fixed]> fs) ∧
    Forall2 (λ line fixed, fix_mongodb_objects line = Ok fixed ∧
                           newlines fixed = newlines line)
            (readlines content) lines_fixed ∧
    newlines (concat lines_fixed) = newlines content.
Proof.
  intros Hpath Hb.
  destruct (map_result_Forall2 fix_mongodb_objects
              (λ line fixed, fix_mongodb_objects line = Ok fixed ∧
                             newlines fixed = newlines line)
              (readlines content)) as (lines_fixed & Hmap & HF).
  { pose proof (readlines_single_line content) as Hs.
    rewrite Forall_forall in Hs, Hb. apply Forall_forall. intros line Hline.
    destruct (fix_plain_line line) as (out & Hout & Hn);
      [by apply Hs | by apply Hb | by eauto]. }
  exists lines_fixed. split_and!; [| done |].
  - by rewrite update_json_file_unfold, Hpath, Hmap.
  - rewrite <- (concat_readlines content) at 1. apply newlines_concat.
    eapply Forall2_impl; [exact HF |]. by intros ?? [_ ?].
Qed.

(** Claim C2, amended, on a three-line file with a backslash outside of
    any payload. *)
Lemma update_json_file_plain_lines_witness :
  ∃ lines_fixed,
    update_json_file "in" "out"
      {[ "in"%string := str "p: c:\\d," ++ [NL] ++ str "q: Ab(x)" ++ [NL] ++ str "}" ]} =
      (Ok (), <["out"%string := concat lines_fixed]>
                {[ "in"%string := str "p: c:\\d," ++ [NL] ++ str "q: Ab(x)" ++ [NL] ++ str "}" ]}) ∧
    Forall2 (λ line fixed, fix_mongodb_objects line = Ok fixed ∧
                           newlines fixed = newlines line)
            (readlines (str "p: c:\\d," ++ [NL] ++ str "q: Ab(x)" ++ [NL] ++ str "}"))
            lines_fixed ∧
    newlines (concat lines_fixed) =
      newlines (str "p: c:\\d," ++ [NL] ++ str "q: Ab(x)" ++ [NL] ++ str "}").
Proof.
  apply update_json_file_plain_lines.
  - reflexivity.
  - apply (Forall_impl (λ line, plain_payloadb line = true)).
    + apply (bool_decide_unpack _). vm_compute. exact I.
    + apply plain_payloadb_spec.
Defined.

(** Claim C3 fails on a document whose [member] object has no
    [customer_id]: [dict.get] answers [None], and the row is returned with
    [None] for the missing field. *)
Lemma read_missing_leaf_gives_none :
  let doc := JObject {[ "member"%string := JObject ∅;
                        "rewards"%string := JObject {[ "amount"%string := JNumber "10.5";
                                                       "currency"%string := JString "USD" ]};
                        "rewards_results"%string :=
                          JArray [JObject {[ "grant_time"%string := JString "t" ]}] ]} in
  read_udpated_json_file doc =
  Ok {| customer_id := JNull; rewards_amount := JNumber "10.5";
        rewards_currency := JString "USD"; grant_time := JString "t" |}.
Proof. vm_compute. reflexivity. Qed.

Lemma bind_raises {A B} (r : pyresult A) (k : A → pyresult B) :
  (∀ a, ∃ e, k a = Raise e) → ∃ e, r ≫= k = Raise e.
Proof. intros H. destruct r as [a|e]; cbn; [apply H | eauto]. Qed.

(** Claim C3, amended. For every parsed document that is an object without
    [member], without [rewards], without [rewards_results], or with an empty
    [rewards_results] array, [read_udpated_json_file] raises an exception and
    returns no row. *)
Theorem read_raises_without_parent (members : gmap string json) :
  (members !! "member"%string = None ∨
   members !! "rewards"%string = None ∨
   members !! "rewards_results"%string = None ∨
   members !! "rewards_results"%string = Some (JArray [])) →
  (∃ e, read_udpated_json_file (JObject members) = Raise e) ∧
  ∀ row, read_udpated_json_file (JObject members) ≠ Ok row.
Proof.
  intros H.
  assert (Hr : ∃ e, read_udpated_json_file (JObject members) = Raise e).
  { unfold read_udpated_json_file. cbn [py_get mbind pyresult_bind].
    destruct H as [-> | [-> | [-> | ->]]]; cbn;
      repeat (apply bind_raises; intros ?); eauto. }
  split; [done |]. destruct Hr as [e ->]. done.
Qed.

(** Claim C3, amended, on a document without [rewards_results]. *)
Lemma read_raises_without_parent_witness :
  (∃ e, read_udpated_json_file
          (JObject {[ "member"%string := JObject {[ "customer_id"%string := JString "c1" ]};
                      "rewards"%string := JObject ∅ ]}) = Raise e) ∧
  ∀ row, read_udpated_json_file
          (JObject {[ "member"%string := JObject {[ "customer_id"%string := JString "c1" ]};
                      "rewards"%string := JObject ∅ ]}) ≠ Ok row.
Proof.
  apply read_raises_without_parent.
  right. right. left. vm_compute. reflexivity.
Defined.

(** A leaf that is missing from a parent that is there is no error. *)
Lemma read_defaults_missing_leaf (members member rewards first : gmap string json) rest :
  members !! "member"%string = Some (JObject member) →
  members !! "rewards"%string = Some (JObject rewards) →
  members !! "rewards_results"%string = Some (JArray (JObject first :: rest)) →
  read_udpated_json_file (JObject members) =
  Ok {| customer_id := default JNull (member !! "customer_id"%string);
        rewards_amount := default JNull (rewards !! "amount"%string);
        rewards_currency := default JNull (rewards !! "currency"%string);
        grant_time := default JNull (first !! "grant_time"%string) |}.
Proof.
  intros Hm Hr Hrr. unfold read_udpated_json_file. cbn [py_get].
  rewrite Hm, Hr, Hrr. reflexivity.
Qed.

(** Claim C4 fails on a line with two constructor expressions: the match is
    greedy, so the closing parenthesis taken away is that of the second
    expression, which is not left as it was. *)
Lemma second_expression_loses_parenthesis :
  let line := str "Ab(x) Cd(y)" in
  line = expression_text "A" (str "b") (str "x") ++ str " Cd(y)" ∧
  fix_mongodb_objects line = Ok (str "x) Cd(y") ∧
  fix_mongodb_objects line ≠ Ok (str "x" ++ str " Cd(y)").
Proof. split_and!; [reflexivity | vm_compute; reflexivity | by vm_compute]. Qed.

Lemma detected_suffix_no_rparen line pre U ident value suf :
  detected line pre U ident value suf → single_line line → RPAREN ∉ suf.
Proof.
  intros (Hline & _ & Hsuf & _) Hs. apply single_line_upto; [|done].
  rewrite Hline in Hs. apply single_line_suffix in Hs.
  by apply single_line_suffix in Hs.
Qed.

Lemma fix_rewrites_plain line pre U ident value suf :
  detected line pre U ident value suf →
  single_line line →
  BACKSLASH ∉ value →
  fix_mongodb_objects line = Ok (pre ++ value ++ suf).
Proof.
  intros Hd Hs Hv. apply (fix_detected line pre U ident value suf); [done | done |].
  by apply (detected_suffix_no_rparen line pre U ident value suf).
Qed.

(** Claim C4, amended. On a line (no newline but at its end) the normalizer
    rewrites the one match the detector returns, the leftmost one, taken
    greedily to the last closing parenthesis of the line: when its payload
    holds no backslash the result is the text before the match, the
    payload, and the text after the match, which holds no closing
    parenthesis. On a line with two constructor expressions this removes
    the first identifier with its opening parenthesis and the closing
    parenthesis of the second. *)
Theorem fix_rewrites_the_detected_match line pre U ident value suf :
  detected line pre U ident value suf →
  single_line line →
  BACKSLASH ∉ value →
  fix_mongodb_objects line = Ok (pre ++ value ++ suf) ∧ RPAREN ∉ suf.
Proof.
  intros Hd Hs Hv. split.
  - by apply (fix_rewrites_plain line pre U ident value suf).
  - by apply (detected_suffix_no_rparen line pre U ident value suf).
Qed.

Lemma detected_at_head U ident value suf :
  constructor_shape U ident value → RPAREN ∉ upto_newline suf →
  detected (expression_text U ident value ++ suf) [] U ident value suf.
Proof.
  intros Hshape Hsuf. split_and!; [done | done | done |].
  intros a b _ Hlen. simpl in Hlen. lia.
Qed.

(** Claim C4, amended, on a line with two constructor expressions. *)
Lemma fix_rewrites_the_detected_match_witness :
  fix_mongodb_objects (str "Ab(x) Cd(y)," ++ [NL]) =
    Ok ([] ++ str "x) Cd(y" ++ (str "," ++ [NL])) ∧
  RPAREN ∉ str "," ++ [NL].
Proof.
  apply (fix_rewrites_the_detected_match _ [] "A" (str "b") (str "x) Cd(y")).
  - apply (detected_at_head "A" (str "b") (str "x) Cd(y") (str "," ++ [NL])).
    + split_and!; [reflexivity | done | |].
      * repeat constructor.
      * apply (bool_decide_unpack _). vm_compute. exact I.
    + apply (bool_decide_unpack _). vm_compute. exact I.
  - apply single_lineb_spec. reflexivity.
  - apply (bool_decide_unpack _). vm_compute. exact I.
Defined.

(** Claim C5 fails on a nested expression: the output of the first
    application is itself a constructor expression, which the second
    application rewrites. *)
Lemma nested_expression_rewritten_twice :
  fix_mongodb_objects (str "Aa(Bb(x))") = Ok (str "Bb(x)") ∧
  fix_mongodb_objects (str "Bb(x)") = Ok (str "x") ∧
  fix_mongodb_objects (str "Bb(x)") ≠ Ok (str "Bb(x)").
Proof. split_and!; [vm_compute; reflexivity | vm_compute; reflexivity | by vm_compute]. Qed.

(** Claim C5, amended. The normalizer is idempotent on every line (no
    newline but at its end) on which the detector finds nothing, or finds a
    payload that holds no backslash and in which the detector itself finds
    nothing. *)
Theorem fix_idempotent_on_plain_payload line :
  single_line line →
  (∀ m value,
     search RE_MONGODB_OBJECT line = Some m →
     gd_get (groupdict m) "value" = Some value →
     (BACKSLASH ∉ value) ∧ search RE_MONGODB_OBJECT value = None) →
  ∃ out, fix_mongodb_objects line = Ok out ∧ fix_mongodb_objects out = Ok out.
Proof.
  intros Hs Hpayload.
  destruct (search RE_MONGODB_OBJECT line) as [m|] eqn:E.
  - destruct (search_detected line m E)
      as (pre & U & ident & value & suf & Hd & _ & Hval).
    destruct (Hpayload m value eq_refl Hval) as [Hb Hnone].
    apply search_None in Hnone.
    exists (pre ++ value ++ suf). split.
    + by apply (fix_rewrites_plain line pre U ident value suf).
    + apply fix_no_constructor.
      by apply (no_constructor_after line pre U ident value suf).
  - exists line. apply search_None in E.
    split; by apply fix_no_constructor.
Qed.

(** Claim C5, amended, on a line with one constructor expression. *)
Lemma fix_idempotent_on_plain_payload_witness :
  ∃ out, fix_mongodb_objects (str "  _id: ObjectId(x)," ++ [NL]) = Ok out ∧
         fix_mongodb_objects out = Ok out.
Proof.
  apply fix_idempotent_on_plain_payload.
  - apply single_lineb_spec. reflexivity.
  - intros m value Hm Hv. vm_compute in Hm. injection Hm as <-.
    vm_compute in Hv. injection Hv as <-.
    split; [apply (bool_decide_unpack _); vm_compute; exact I | reflexivity].
Defined.

(** Claim C6. Whenever the detector matches, the line is some text, one
    uppercase letter, one or more letters, an opening parenthesis, a
    payload, a closing parenthesis and a rest; the group [expression] is
    the identifier with the parenthesized payload, the group [value] is the
    payload; the payload holds no newline, and the match is greedy: no
    closing parenthesis follows it before the end of the line, so that the
    payload runs to the last closing parenthesis of the line. *)
Theorem detector_shape_and_greed line m :
  search RE_MONGODB_OBJECT line = Some m →
  ∃ pre U ident value suf,
    line = pre ++ U :: ident ++ LPAREN :: value ++ RPAREN :: suf ∧
    is_upper U = true ∧ ident ≠ [] ∧ Forall (λ c, is_letter c = true) ident ∧
    gd_get (groupdict m) "expression" = Some (U :: ident ++ LPAREN :: value ++ [RPAREN]) ∧
    gd_get (groupdict m) "value" = Some value ∧
    (NL ∉ value) ∧
    (RPAREN ∉ upto_newline suf) ∧
    (single_line line → RPAREN ∉ suf).
Proof.
  intros Hm.
  destruct (search_detected line m Hm)
    as (pre & U & ident & value & suf & Hd & He & Hv).
  pose proof Hd as (Hline & (HU & Hne & Hident & Hnl) & Hsuf & _).
  exists pre, U, ident, value, suf. split_and!; try done.
  - rewrite Hline. by list_norm.
  - intros Hs. by apply (detected_suffix_no_rparen line pre U ident value suf).
Qed.

(** Claim C6 on a line with nested and repeated parentheses. *)
Lemma detector_shape_and_greed_witness :
  ∃ pre U ident value suf,
    str "k: Ab(f(1), g(2)) ;" = pre ++ U :: ident ++ LPAREN :: value ++ RPAREN :: suf ∧
    is_upper U = true ∧ ident ≠ [] ∧ Forall (λ c, is_letter c = true) ident ∧
    gd_get (groupdict (match_found (str "k: Ab(f(1), g(2)) ;") 3 1 10)) "expression"
      = Some (U :: ident ++ LPAREN :: value ++ [RPAREN]) ∧
    gd_get (groupdict (match_found (str "k: Ab(f(1), g(2)) ;") 3 1 10)) "value"
      = Some value ∧
    (NL ∉ value) ∧
    (RPAREN ∉ upto_newline suf) ∧
    (single_line (str "k: Ab(f(1), g(2)) ;") → RPAREN ∉ suf).
Proof.
  apply detector_shape_and_greed. vm_compute. reflexivity.
Defined.

(** The detector finds an expression exactly on the lines that hold one. *)
Lemma detector_complete line :
  is_Some (search RE_MONGODB_OBJECT line) ↔ has_constructor line.
Proof.
  split.
  - intros [m Hm] . destruct (search_detected line m Hm)
      as (pre & U & ident & value & suf & (-> & Hshape & _) & _).
    exists pre, (expression_text U ident value ++ suf). split; [done |].
    by exists U, ident, value, suf.
  - intros H. by apply has_constructor_search.
Qed.

(** Claim C7. A line that holds no constructor expression (an uppercase
    letter, one or more letters, and a parenthesized group that closes on
    the same line) is returned unchanged, without exception. *)
Theorem fix_unchanged_without_constructor line :
  ¬ has_constructor line → fix_mongodb_objects line = Ok line.
Proof. apply fix_no_constructor. Qed.

(** Claim C7 on a line of closing punctuation. *)
Lemma fix_unchanged_without_constructor_witness :
  fix_mongodb_objects (str "  },") = Ok (str "  },").
Proof.
  apply fix_unchanged_without_constructor.
  apply search_None. vm_compute. reflexivity.
Defined.

(** Claim C8. The two examples of the specification: a bare constructor
    expression gives its quoted payload, and in a line with an indented
    key, a comma and a newline only the expression is replaced. *)
Theorem fix_spec_examples :
  fix_mongodb_objects (str "ObjectId(" ++ [DQ] ++ str "abc123" ++ [DQ] ++ str ")")
    = Ok ([DQ] ++ str "abc123" ++ [DQ]) ∧
  fix_mongodb_objects
    (str "  " ++ [DQ] ++ str "_id" ++ [DQ] ++ str ": ObjectId(" ++ [DQ] ++ str "x"
       ++ [DQ] ++ str ")," ++ [NL])
    = Ok (str "  " ++ [DQ] ++ str "_id" ++ [DQ] ++ str ": " ++ [DQ] ++ str "x"
            ++ [DQ] ++ str "," ++ [NL]).
Proof. split; vm_compute; reflexivity. Qed.

(** Claim C9. When the source exists and every line normalizes,
    [update_json_file] leaves the file system with the destination holding
    the concatenation, in order, of the normalized lines, and nothing else
    changed; each line is normalized on its own, and the lines read make up
    the content of the source, terminators included. *)
Theorem update_json_file_maps_lines path output_path (fs : gmap string text)
    content lines_fixed :
  fs !! path = Some content →
  map_result fix_mongodb_objects (readlines content) = Ok lines_fixed →
  update_json_file path output_path fs =
    (Ok (), <[output_path := concat lines_fixed]> fs) ∧
  Forall2 (λ line fixed, fix_mongodb_objects line = Ok fixed)
          (readlines content) lines_fixed ∧
  concat (readlines content) = content.
Proof.
  intros Hpath Hmap. split_and!.
  - by rewrite update_json_file_unfold, Hpath, Hmap.
  - by apply map_result_Forall2_inv.
  - apply concat_readlines.
Qed.

(** Claim C9 on a three-line file. *)
Lemma update_json_file_maps_lines_witness :
  update_json_file "in" "out" {[ "in"%string := str "{" ++ [NL] ++ str "Ab(x)" ++ [NL] ++ str "}" ]} =
    (Ok (), <["out"%string := concat [str "{" ++ [NL]; str "x" ++ [NL]; str "}"]]>
              {[ "in"%string := str "{" ++ [NL] ++ str "Ab(x)" ++ [NL] ++ str "}" ]}) ∧
  Forall2 (λ line fixed, fix_mongodb_objects line = Ok fixed)
          (readlines (str "{" ++ [NL] ++ str "Ab(x)" ++ [NL] ++ str "}"))
          [str "{" ++ [NL]; str "x" ++ [NL]; str "}"] ∧
  concat (readlines (str "{" ++ [NL] ++ str "Ab(x)" ++ [NL] ++ str "}")) =
    str "{" ++ [NL] ++ str "Ab(x)" ++ [NL] ++ str "}".
Proof.
  apply update_json_file_maps_lines.
  - reflexivity.
  - vm_compute. reflexivity.
Defined.

(** Claim C10. The source is read and normalized in full before the
    destination is opened: a call leaves the source as it was when the two
    paths differ, leaves the whole file system as it was when it raises, and
    on success the destination holds the normalized content of the whole
    source, also when the destination is the source itself. *)
Theorem update_json_file_reads_before_writing path output_path
    (fs fs' : gmap string text) r :
  update_json_file path output_path fs = (r, fs') →
  (path ≠ output_path → fs' !! path = fs !! path) ∧
  (∀ e, r = Raise e → fs' = fs) ∧
  (r = Ok () →
   ∃ content lines_fixed,
     fs !! path = Some content ∧
     map_result fix_mongodb_objects (readlines content) = Ok lines_fixed ∧
     fs' !! output_path = Some (concat lines_fixed)).
Proof.
  rewrite update_json_file_unfold.
  destruct (fs !! path) as [content|] eqn:Hpath.
  - destruct (map_result _ _) as [lines_fixed|e] eqn:Hmap; intros [= <- <-].
    + split_and!.
      * intros Hne. by rewrite lookup_insert_ne.
      * done.
      * intros _. exists content, lines_fixed.
        split_and!; [done | done | by rewrite lookup_insert_eq].
    + split_and!; [done | done | done].
  - intros [= <- <-]. split_and!; [done | done | done].
Qed.

(** Claim C10 on a call whose destination is its source. *)
Lemma update_json_file_reads_before_writing_witness :
  ("f"%string ≠ "f"%string →
     ({[ "f"%string := str "x" ++ [NL] ]} : gmap string text) !! "f"%string =
     ({[ "f"%string := str "Ab(x)" ++ [NL] ]} : gmap string text) !! "f"%string) ∧
  (∀ e, Ok () = Raise e →
     ({[ "f"%string := str "x" ++ [NL] ]} : gmap string text) =
     {[ "f"%string := str "Ab(x)" ++ [NL] ]}) ∧
  (Ok () = Ok () →
   ∃ content lines_fixed,
     ({[ "f"%string := str "Ab(x)" ++ [NL] ]} : gmap string text) !! "f"%string = Some content ∧
     map_result fix_mongodb_objects (readlines content) = Ok lines_fixed ∧
     ({[ "f"%string := str "x" ++ [NL] ]} : gmap string text) !! "f"%string =
       Some (concat lines_fixed)).
Proof.
  apply (update_json_file_reads_before_writing "f" "f").
  vm_compute. reflexivity.
Defined.

(** ** Further properties of the code *)

(** The pattern built from an escaped text matches that text and nothing
    else: at any offset an attempt succeeds exactly when the subject goes on
    with the text, whatever characters it holds, and the match spans it. *)
Theorem escaped_pattern_is_literal p subject s pos :
  ∃ r, compile_escaped (re_escape p) = Some r ∧
       groups r = 0 ∧
       (is_Some (match_at r subject s pos false) ↔ ∃ rest, s = p ++ rest) ∧
       ∀ m, match_at r subject s pos false = Some m →
            m_start m = pos ∧ m_end m = pos + length p.
Proof.
  exists (literal_regex p). split_and!.
  - apply compile_escaped_re_escape.
  - apply groups_literal.
  - split.
    + intros [m Hm]. by apply run_literal_Some in Hm.
    + intros [rest ->]. unfold match_at. rewrite run_literal_app. simpl. eauto.
  - intros m Hm. pose proof Hm as Hm'. apply run_literal_Some in Hm' as [rest ->].
    unfold match_at in Hm. rewrite run_literal_app in Hm. simpl in Hm.
    by injection Hm as <-.
Qed.

(** The call of [re.sub] made for a detected expression, with the
    replacement template still to be parsed. *)
Lemma fix_detected_template line pre U ident value suf :
  detected line pre U ident value suf →
  fix_mongodb_objects line =
  tpl ← parse_template 0 [] Plain value;
  Ok (sub_loop (literal_regex (expression_text U ident value)) tpl line line 0 0).
Proof.
  intros Hd. pose proof (detected_search _ _ _ _ _ _ Hd) as Hs.
  destruct Hd as (Hline & _).
  destruct (groupdict_match_found pre U ident value suf) as [He Hval].
  cbv zeta in He, Hval. rewrite <- Hline in He, Hval.
  rewrite (fix_found line _ U ident value Hs He Hval). unfold re_sub.
  by rewrite compile_escaped_re_escape, groups_literal, groupindex_literal.
Qed.

(** [re.sub] is called without a count: when the text handed to the
    normalizer holds the detected expression again on a second line, both
    occurrences are replaced by the payload. *)
Theorem fix_replaces_every_occurrence U ident value :
  constructor_shape U ident value →
  BACKSLASH ∉ value →
  fix_mongodb_objects
    (expression_text U ident value ++ NL :: expression_text U ident value) =
  Ok (value ++ NL :: value).
Proof.
  intros Hshape Hb.
  assert (Hd : detected
    (expression_text U ident value ++ NL :: expression_text U ident value)
    [] U ident value (NL :: expression_text U ident value)).
  { apply detected_at_head; [done |]. simpl. apply not_elem_of_nil. }
  rewrite (fix_detected_template _ _ _ _ _ _ Hd), parse_template_plain by done.
  cbn [mbind pyresult_bind]. f_equal.
  generalize (expression_text U ident value ++ NL :: expression_text U ident value)
    at 1.
  intros subject.
  replace (expression_text U ident value ++ NL :: expression_text U ident value)
    with ([] ++ expression_text U ident value ++
          [NL] ++ expression_text U ident value ++ [])
    by (simpl; by rewrite app_nil_r).
  rewrite (sub_loop_first _ value _ _ (expression_text_nonempty U ident value)
             (expand_template_plain value) []).
  2: { intros a b rest Hab Hne. symmetry in Hab.
       apply app_eq_nil in Hab as [_ ->]. done. }
  rewrite (sub_loop_first _ value _ _ (expression_text_nonempty U ident value)
             (expand_template_plain value) [NL] []).
  2: { intros [|x a] b rest Hab Hne.
       - simpl in Hab. subst b. unfold expression_text. simpl. intros [= HU _].
         destruct Hshape as (Hup & _). by apply (upper_not_newline U).
       - injection Hab as _ Hab. symmetry in Hab.
         apply app_eq_nil in Hab as [_ ->]. done. }
  rewrite sub_loop_copy.
  - simpl. by rewrite app_nil_r.
  - intros a b rest Hab. symmetry in Hab. apply app_eq_nil in Hab as [_ ->].
    unfold expression_text. done.
Qed.

(** Two lines that hold the same date expression. *)
Lemma fix_replaces_every_occurrence_witness :
  fix_mongodb_objects
    (expression_text "D" (str "ate") (str "1") ++ NL :: expression_text "D" (str "ate") (str "1")) =
  Ok (str "1" ++ NL :: str "1").
Proof.
  apply fix_replaces_every_occurrence.
  - split_and!; [reflexivity | done | repeat constructor |].
    apply (bool_decide_unpack _). vm_compute. exact I.
  - apply (bool_decide_unpack _). vm_compute. exact I.
Defined.

Lemma parse_template_trailing_backslash n gi v :
  BACKSLASH ∉ v → parse_template n gi Plain (v ++ [BACKSLASH]) = Raise re_error.
Proof.
  induction v as [|c v IH]; intros H; [done |].
  apply not_elem_of_cons in H as [Hc Hv]. cbn [app parse_template].
  rewrite (proj2 (Ascii.eqb_neq _ _)) by done. cbn [negb].
  by rewrite IH.
Qed.

Lemma parse_template_bad_escape n gi v d w :
  BACKSLASH ∉ v → is_ascii_letter d = true → ESCAPES d = None → d ≠ "g" →
  parse_template n gi Plain (v ++ BACKSLASH :: d :: w) = Raise re_error.
Proof.
  intros Hv Hd He Hg. induction v as [|c v IH].
  - cbn [app parse_template]. rewrite Ascii.eqb_refl. cbn [negb].
    rewrite (proj2 (Ascii.eqb_neq _ _) Hg).
    assert (H0 : Ascii.eqb d "0" = false).
    { apply Ascii.eqb_neq. intros ->. by vm_compute in Hd. }
    assert (Hdig : is_digit d = false).
    { destruct (is_digit d) eqn:E; [|done]. exfalso.
      unfold is_digit, is_ascii_letter, in_range in *.
      apply andb_true_iff in E as [E1 E2].
      apply Nat.leb_le in E1, E2. apply orb_true_iff in Hd as [Hd | Hd];
        apply andb_true_iff in Hd as [Hd1 Hd2]; apply Nat.leb_le in Hd1, Hd2;
        change (nat_of_ascii "0") with 48 in *;
        change (nat_of_ascii "9") with 57 in *;
        change (nat_of_ascii "a") with 97 in *;
        change (nat_of_ascii "z") with 122 in *;
        change (nat_of_ascii "A") with 65 in *;
        change (nat_of_ascii "Z") with 90 in *; lia. }
    by rewrite H0, Hdig, He, Hd.
  - apply not_elem_of_cons in Hv as [Hc Hv]. cbn [app parse_template].
    rewrite (proj2 (Ascii.eqb_neq _ _)) by done. cbn [negb].
    by rewrite IH.
Qed.

(** A payload that ends with a lone backslash, or in which the first
    backslash is followed by an ASCII letter that is no escape of the
    template syntax (such as d, w, u or x), makes the normalizer raise
    [re.error]. *)
Theorem fix_raises_on_bad_escape line pre U ident value suf v d w :
  detected line pre U ident value suf →
  BACKSLASH ∉ v →
  value = v ++ [BACKSLASH] ∨
  (value = v ++ BACKSLASH :: d :: w ∧
   is_ascii_letter d = true ∧ ESCAPES d = None ∧ d ≠ "g") →
  fix_mongodb_objects line = Raise re_error.
Proof.
  intros Hd Hv Hcase. rewrite (fix_detected_template _ _ _ _ _ _ Hd).
  destruct Hcase as [-> | (-> & Hl & He & Hg)].
  - by rewrite parse_template_trailing_backslash.
  - by rewrite parse_template_bad_escape.
Qed.

(** A payload that is a regular expression with a digit class. *)
Lemma fix_raises_on_bad_escape_witness :
  fix_mongodb_objects (expression_text "R" (str "egex") (str "^\d+$") ++ str ",") =
  Raise re_error.
Proof.
  apply (fix_raises_on_bad_escape _ [] "R" (str "egex") (str "^\d+$") (str ",")
           (str "^") "d" (str "+$")).
  - apply detected_at_head.
    + split_and!; [reflexivity | done | repeat constructor |].
      apply (bool_decide_unpack _). vm_compute. exact I.
    + apply (bool_decide_unpack _). vm_compute. exact I.
  - apply (bool_decide_unpack _). vm_compute. exact I.
  - right. split_and!; [reflexivity | reflexivity | reflexivity | done].
Defined.

Lemma map_result_raises {A B} (f : A → pyresult B) xs x e :
  x ∈ xs → f x = Raise e → ∃ e', map_result f xs = Raise e'.
Proof.
  induction 1 as [x xs | x y xs _ IH]; intros Hx; simpl.
  - rewrite Hx. simpl. eauto.
  - destruct (f y) as [b|e0]; simpl; [|eauto].
    destruct (IH Hx) as [e' ->]. simpl. eauto.
Qed.

(** When one line of the source cannot be normalized, [update_json_file]
    raises and leaves the file system as it was: the destination is neither
    created nor truncated, and the lines before the bad one are not
    written. *)
Theorem update_json_file_raises_on_bad_line path output_path
    (fs : gmap string text) content line e :
  fs !! path = Some content →
  line ∈ readlines content →
  fix_mongodb_objects line = Raise e →
  ∃ e', update_json_file path output_path fs = (Raise e', fs).
Proof.
  intros Hpath Hline He. rewrite update_json_file_unfold, Hpath.
  destruct (map_result_raises fix_mongodb_objects _ line e Hline He) as [e' ->].
  eauto.
Qed.

(** A second line whose payload is a lone backslash: the destination keeps
    its old content. *)
Lemma update_json_file_raises_on_bad_line_witness :
  ∃ e', update_json_file "in" "out"
          {[ "in"%string := str "Ab(x)" ++ [NL] ++ str "Cd(\)" ++ [NL];
             "out"%string := str "old" ]} =
        (Raise e', {[ "in"%string := str "Ab(x)" ++ [NL] ++ str "Cd(\)" ++ [NL];
                      "out"%string := str "old" ]}).
Proof.
  apply (update_json_file_raises_on_bad_line "in" "out" _
           (str "Ab(x)" ++ [NL] ++ str "Cd(\)" ++ [NL])
           (str "Cd(\)" ++ [NL]) re_error).
  - vm_compute. reflexivity.
  - apply (bool_decide_unpack _). vm_compute. exact I.
  - vm_compute. reflexivity.
Defined.






(** A line is left as it is exactly when it holds no constructor
    expression: on a line whose payload holds no backslash, a detected
    expression always changes the line. *)
Theorem fix_fixed_point_iff line :
  single_line line →
  plain_payload line →
  (fix_mongodb_objects line = Ok line ↔ ¬ has_constructor line).
Proof.
  intros Hs Hp. split; [|apply fix_no_constructor].
  intros Hfix Hc. apply has_constructor_search in Hc as [m Hm].
  destruct (search_detected line m Hm)
    as (pre & U & ident & value & suf & Hd & _ & Hval).
  rewrite (fix_rewrites_plain line pre U ident value suf Hd Hs (Hp m value Hm Hval))
    in Hfix.
  destruct Hd as (Hline & _). injection Hfix as Hfix.
  rewrite Hline in Hfix. apply (f_equal length) in Hfix.
  rewrite !length_app, length_expression_text in Hfix. lia.
Qed.

(** A line with one constructor expression. *)
Lemma fix_fixed_point_iff_witness :
  fix_mongodb_objects (str "x: Ab(1),") = Ok (str "x: Ab(1),") ↔
  ¬ has_constructor (str "x: Ab(1),").
Proof.
  apply fix_fixed_point_iff.
  - apply single_lineb_spec. reflexivity.
  - apply plain_payloadb_spec. reflexivity.
Defined.

Lemma elem_of_upto_newline c s : c ∈ upto_newline s → c ∈ s.
Proof.
  induction s as [|d s IH]; simpl; [done |].
  destruct (Ascii.eqb d NL); [by intros ?%elem_of_nil |].
  intros [-> | H]%elem_of_cons; apply elem_of_cons; [by left | right; by apply IH].
Qed.

(** The identifier need not start a word: text without uppercase letter
    that is glued to the identifier is kept, and the expression behind it
    is rewritten (a call such as toDate(x) loses Date and its
    parentheses). *)
Theorem fix_keeps_lowercase_prefix pre U ident value suf :
  Forall (λ c, is_upper c = false) pre →
  constructor_shape U ident value →
  BACKSLASH ∉ value →
  RPAREN ∉ suf →
  fix_mongodb_objects (pre ++ expression_text U ident value ++ suf) =
  Ok (pre ++ value ++ suf).
Proof.
  intros Hpre Hshape Hb Hsuf.
  apply (fix_detected _ pre U ident value suf); [|done | done].
  split_and!; [done | done | |].
  - intros Hin. apply Hsuf. by apply elem_of_upto_newline.
  - intros a b Hab Hlen (U' & ident' & value' & rest' & Hb' & HU' & _).
    apply app_eq_inv in Hab as [(k & Hk & ->) | (k & -> & Hk)].
    + destruct k as [|c k].
      { rewrite app_nil_r in Hk. subst a. lia. }
      unfold expression_text in Hb'. simpl in Hb'. injection Hb' as -> _.
      rewrite Hk in Hpre. apply Forall_app in Hpre as [_ Hpre].
      inversion Hpre; subst. congruence.
    + rewrite length_app in Hlen. lia.
Qed.

(** A camel-case call. *)
Lemma fix_keeps_lowercase_prefix_witness :
  fix_mongodb_objects (str "f: to" ++ expression_text "D" (str "ate") (str "x") ++ str ",") =
  Ok (str "f: to" ++ str "x" ++ str ",").
Proof.
  apply fix_keeps_lowercase_prefix.
  - apply (bool_decide_unpack _). vm_compute. exact I.
  - split_and!; [reflexivity | done | repeat constructor |].
    apply (bool_decide_unpack _). vm_compute. exact I.
  - apply (bool_decide_unpack _). vm_compute. exact I.
  - apply (bool_decide_unpack _). vm_compute. exact I.
Defined.

Lemma single_line_app a s : NL ∉ a → single_line s → single_line (a ++ s).
Proof.
  induction a as [|c a IH]; intros Ha Hs; [done |].
  apply not_elem_of_cons in Ha as [Hc Ha]. simpl.
  apply single_line_cons; [done | by apply IH].
Qed.

(** Normalizing a line gives a line: on a line (no newline but at its end)
    whose payload holds no backslash the result has no newline but at its
    end either, and ends with a newline exactly when the line does. *)
Theorem fix_keeps_single_line line :
  single_line line →
  plain_payload line →
  ∃ out, fix_mongodb_objects line = Ok out ∧ single_line out ∧
         (NL ∈ out ↔ NL ∈ line).
Proof.
  intros Hs Hp. destruct (search RE_MONGODB_OBJECT line) as [m|] eqn:E.
  - destruct (search_detected line m E)
      as (pre & U & ident & value & suf & Hd & _ & Hval).
    exists (pre ++ value ++ suf).
    split; [by apply (fix_rewrites_plain line pre U ident value suf Hd Hs (Hp m value E Hval)) |].
    destruct Hd as (Hline & Hshape & _).
    pose proof (newline_not_in_expression U ident value Hshape) as He.
    destruct Hshape as (_ & _ & _ & Hv).
    assert (Hpre : NL ∉ pre).
    { rewrite Hline in Hs. by apply (single_line_before _ _ Hs). }
    assert (Hsuf : single_line suf).
    { rewrite Hline in Hs. apply single_line_suffix in Hs.
      by apply single_line_suffix in Hs. }
    split.
    + apply single_line_app; [done |]. by apply single_line_app.
    + rewrite Hline, !elem_of_app.
      split; (intros [H | [H | H]]; [by left | done | right; by right]).
  - exists line. apply search_None in E.
    split_and!; [by apply fix_no_constructor | done | done].
Qed.

(** A terminated line with one constructor expression. *)
Lemma fix_keeps_single_line_witness :
  ∃ out, fix_mongodb_objects (str "x: Ab(1)," ++ [NL]) = Ok out ∧ single_line out ∧
         (NL ∈ out ↔ NL ∈ str "x: Ab(1)," ++ [NL]).
Proof.
  apply fix_keeps_single_line.
  - apply single_lineb_spec. reflexivity.
  - apply plain_payloadb_spec. reflexivity.
Defined.

(** The loader returns a row exactly when the document is an object whose
    [member] and [rewards] are objects and whose [rewards_results] is an
    array that starts with an object; the row then holds the value at each
    of the four paths, or [None] where the last key is absent. In every
    other case it raises. *)
Theorem read_ok_iff doc row :
  read_udpated_json_file doc = Ok row ↔
  ∃ members member rewards first rest,
    doc = JObject members ∧
    members !! "member"%string = Some (JObject member) ∧
    members !! "rewards"%string = Some (JObject rewards) ∧
    members !! "rewards_results"%string = Some (JArray (JObject first :: rest)) ∧
    row = {| customer_id := default JNull (member !! "customer_id"%string);
             rewards_amount := default JNull (rewards !! "amount"%string);
             rewards_currency := default JNull (rewards !! "currency"%string);
             grant_time := default JNull (first !! "grant_time"%string) |}.
Proof.
  split.
  - unfold read_udpated_json_file. destruct doc as [| | | | |members]; try done.
    cbn [py_get mbind pyresult_bind].
    destruct (members !! "member"%string) as [[| | | | |member]|] eqn:Hm; try done.
    cbn [py_get default mbind pyresult_bind].
    destruct (members !! "rewards"%string) as [[| | | | |rewards]|] eqn:Hr; try done.
    cbn [py_get default mbind pyresult_bind].
    destruct (members !! "rewards_results"%string)
      as [[| | |[|c s]|[|[| | | | |first] rest]|]|] eqn:Hrr; try done.
    cbn. intros [= <-]. by exists members, member, rewards, first, rest.
  - intros (members & member & rewards & first & rest & -> & Hm & Hr & Hrr & ->).
    by apply (read_defaults_missing_leaf _ _ _ _ rest).
Qed.

(** The entries of the row are evaluated in order, so a document that is
    not an object, or whose [member] is absent or is not an object, raises
    [AttributeError] whatever the other fields hold. *)
Theorem read_without_member doc :
  (∀ members member,
     doc = JObject members → members !! "member"%string ≠ Some (JObject member)) →
  read_udpated_json_file doc = Raise AttributeError.
Proof.
  intros H. unfold read_udpated_json_file.
  destruct doc as [| | | | |members]; try done.
  cbn [py_get mbind pyresult_bind].
  destruct (members !! "member"%string) as [[| | | | |member]|] eqn:Hm; try done.
  by destruct (H members member eq_refl).
Qed.

(** A document whose member is a string. *)
Lemma read_without_member_witness :
  read_udpated_json_file
    (JObject {[ "rewards"%string := JObject ∅; "member"%string := JString "m" ]}) =
  Raise AttributeError.
Proof.
  apply read_without_member. intros members member [= <-]. by vm_compute.
Defined.

(** With [member] and [rewards] in place, what [rewards_results] holds
    decides the exception: absent it is [TypeError] (the default [None]
    cannot be indexed), an empty array is [IndexError], an object is
    [KeyError], and an array that starts with something else than an object
    is [AttributeError]. *)
Theorem read_rewards_results_errors (members member rewards : gmap string json) :
  members !! "member"%string = Some (JObject member) →
  members !! "rewards"%string = Some (JObject rewards) →
  (members !! "rewards_results"%string = None →
     read_udpated_json_file (JObject members) = Raise TypeError) ∧
  (members !! "rewards_results"%string = Some (JArray []) →
     read_udpated_json_file (JObject members) = Raise IndexError) ∧
  (∀ o, members !! "rewards_results"%string = Some (JObject o) →
     read_udpated_json_file (JObject members) = Raise KeyError) ∧
  (∀ x rest, members !! "rewards_results"%string = Some (JArray (x :: rest)) →
     (∀ first, x ≠ JObject first) →
     read_udpated_json_file (JObject members) = Raise AttributeError).
Proof.
  intros Hm Hr. unfold read_udpated_json_file. cbn [py_get].
  rewrite Hm, Hr. cbn [default mbind pyresult_bind py_get].
  split_and!.
  - by intros ->.
  - by intros ->.
  - by intros o ->.
  - intros x rest -> Hx. cbn. destruct x as [| | | | |first]; try done.
    by destruct (Hx first).
Qed.

(** A document without rewards_results. *)
Lemma read_rewards_results_errors_witness :
  read_udpated_json_file
    (JObject {[ "member"%string := JObject ∅; "rewards"%string := JObject ∅ ]}) =
  Raise TypeError.
Proof.
  apply (read_rewards_results_errors _ ∅ ∅); by vm_compute.
Defined.

Lemma ESCAPES_Some d c :
  ESCAPES d = Some c →
  Ascii.eqb d "g" = false ∧ Ascii.eqb d "0" = false ∧ is_digit d = false.
Proof.
  unfold ESCAPES.
  repeat match goal with
         | |- context [Ascii.eqb d ?x] =>
             destruct (Ascii.eqb_spec d x) as [-> | ?]; [intros _; by vm_compute |]
         end.
  done.
Qed.

Lemma not_alnum_plain d :
  is_ascii_letter d = false → is_digit d = false →
  Ascii.eqb d "g" = false ∧ Ascii.eqb d "0" = false ∧
  (d ≠ BACKSLASH → ESCAPES d = None).
Proof.
  intros Hl Hd. split_and!.
  - apply Ascii.eqb_neq. intros ->. by vm_compute in Hl.
  - apply Ascii.eqb_neq. intros ->. by vm_compute in Hd.
  - intros Hb. unfold ESCAPES.
    repeat match goal with
           | |- context [Ascii.eqb d ?x] =>
               destruct (Ascii.eqb_spec d x) as [-> | ?];
               [first [by vm_compute in Hl | done] |]
           end.
    done.
Qed.

Lemma parse_template_escape n gi v d w c :
  BACKSLASH ∉ v → BACKSLASH ∉ w → ESCAPES d = Some c →
  parse_template n gi Plain (v ++ BACKSLASH :: d :: w) = Ok (TLit <$> v ++ c :: w).
Proof.
  intros Hv Hw He. destruct (ESCAPES_Some d c He) as (Hg & H0 & Hdig).
  induction v as [|x v IH].
  - cbn [app parse_template]. rewrite Ascii.eqb_refl. cbn [negb].
    by rewrite Hg, H0, Hdig, He, parse_template_plain.
  - apply not_elem_of_cons in Hv as [Hx Hv]. cbn [app parse_template].
    rewrite (proj2 (Ascii.eqb_neq _ _)) by done. cbn [negb].
    by rewrite IH.
Qed.

Lemma parse_template_kept n gi v d w :
  BACKSLASH ∉ v → BACKSLASH ∉ w →
  is_ascii_letter d = false → is_digit d = false → d ≠ BACKSLASH →
  parse_template n gi Plain (v ++ BACKSLASH :: d :: w) =
  Ok (TLit <$> v ++ BACKSLASH :: d :: w).
Proof.
  intros Hv Hw Hl Hd Hb. destruct (not_alnum_plain d Hl Hd) as (Hg & H0 & He).
  induction v as [|x v IH].
  - cbn [app parse_template]. rewrite Ascii.eqb_refl. cbn [negb].
    by rewrite Hg, H0, Hd, (He Hb), Hl, parse_template_plain.
  - apply not_elem_of_cons in Hv as [Hx Hv]. cbn [app parse_template].
    rewrite (proj2 (Ascii.eqb_neq _ _)) by done. cbn [negb].
    by rewrite IH.
Qed.

(** The result for a detected expression whose payload, read as a
    template, is the plain text [x]. *)
Lemma fix_detected_as line pre U ident value suf x :
  detected line pre U ident value suf →
  parse_template 0 [] Plain value = Ok (TLit <$> x) →
  RPAREN ∉ suf →
  fix_mongodb_objects line = Ok (pre ++ x ++ suf).
Proof.
  intros Hd Hx Hsuf.
  pose proof (detected_no_earlier _ _ _ _ _ _ Hd) as Hearly.
  rewrite (fix_detected_template _ _ _ _ _ _ Hd), Hx.
  destruct Hd as (Hline & _). cbn [mbind pyresult_bind]. f_equal.
  rewrite Hline at 2.
  rewrite (sub_loop_first _ x) by
    (try apply expand_template_plain; try apply expression_text_nonempty; done).
  rewrite sub_loop_copy; [done |]. by apply no_later_occurrence.
Qed.

(** What one backslash in the payload does, the rest of the payload
    holding none. Followed by one of a, b, f, n, r, t, v or by a second
    backslash, the two characters are replaced by the character the escape
    stands for (an escaped backslash comes out as one backslash, backslash
    n as a newline). Followed by a character that is no ASCII letter, no
    digit and no backslash (such as a double quote or a slash), the two
    characters are kept. *)
Theorem fix_payload_escape line pre U ident v d w suf :
  detected line pre U ident (v ++ BACKSLASH :: d :: w) suf →
  BACKSLASH ∉ v → BACKSLASH ∉ w → RPAREN ∉ suf →
  (∀ c, ESCAPES d = Some c →
     fix_mongodb_objects line = Ok (pre ++ (v ++ c :: w) ++ suf)) ∧
  (is_ascii_letter d = false → is_digit d = false → d ≠ BACKSLASH →
     fix_mongodb_objects line = Ok (pre ++ (v ++ BACKSLASH :: d :: w) ++ suf)).
Proof.
  intros Hd Hv Hw Hsuf. split.
  - intros c He. apply (fix_detected_as _ _ _ _ _ _ _ Hd); [|done].
    by apply parse_template_escape.
  - intros Hl Hdig Hb. apply (fix_detected_as _ _ _ _ _ _ _ Hd); [|done].
    by apply parse_template_kept.
Qed.

(** A payload that is a JSON string with an escaped double quote. *)
Lemma fix_payload_escape_witness :
  (∀ c, ESCAPES DQ = Some c →
     fix_mongodb_objects (expression_text "T" (str "ext") ([DQ] ++ str "a" ++ BACKSLASH :: DQ :: str "b" ++ [DQ]) ++ str ",") =
     Ok ([] ++ (([DQ] ++ str "a") ++ c :: (str "b" ++ [DQ])) ++ str ",")) ∧
  (is_ascii_letter DQ = false → is_digit DQ = false → DQ ≠ BACKSLASH →
     fix_mongodb_objects (expression_text "T" (str "ext") ([DQ] ++ str "a" ++ BACKSLASH :: DQ :: str "b" ++ [DQ]) ++ str ",") =
     Ok ([] ++ (([DQ] ++ str "a") ++ BACKSLASH :: DQ :: (str "b" ++ [DQ])) ++ str ",")).
Proof.
  apply (fix_payload_escape _ [] "T" (str "ext") ([DQ] ++ str "a") DQ (str "b" ++ [DQ]) (str ",")).
  - apply (detected_at_head "T" (str "ext")
             (([DQ] ++ str "a") ++ BACKSLASH :: DQ :: (str "b" ++ [DQ])) (str ",")).
    + split_and!; [reflexivity | done | repeat constructor |].
      apply (bool_decide_unpack _). vm_compute. exact I.
    + apply (bool_decide_unpack _). vm_compute. exact I.
  - apply (bool_decide_unpack _). vm_compute. exact I.
  - apply (bool_decide_unpack _). vm_compute. exact I.
  - apply (bool_decide_unpack _). vm_compute. exact I.
Defined.
